(** * The request normalizer of slo-exporter (pkg/normalizer/normalizer.go)

    A shallow embedding of the normalizer stage: rewrite rules, the path
    sanitizer, the event key builder and the channel worker, together
    with the properties its specification states about them.

    Go strings are byte sequences: they are modelled as [string], whose
    characters are the bytes.  A slice updated by index is a [list] with
    stdpp's lookup [!!] and insert [<[i:=x]>]; a Go map is a [gmap]. *)

From Stdlib Require Import Ascii String NArith Lia.
From stdpp Require Import base option list strings gmap relations.

Open Scope string_scope.
Open Scope list_scope.

(** ** Outcomes of code that can panic *)

Module Outcome.

Inductive outcome (A : Type) : Type :=
| Returns (a : A)
| Panics.

Arguments Returns {A} a.
Arguments Panics {A}.

Definition bind {A B : Type} (m : outcome A) (k : A -> outcome B) : outcome B :=
  match m with
  | Returns a => k a
  | Panics => Panics
  end.

End Outcome.

Export Outcome.

#[global] Instance outcome_ret : MRet outcome := @Returns.
#[global] Instance outcome_bind : MBind outcome := fun A B k m => Outcome.bind m k.

(** ** Bytes and byte classes *)

Module Bytes.

Definition code (c : ascii) : N := N_of_ascii c.

Definition between (lo hi : N) (c : ascii) : bool :=
  ((lo <=? code c) && (code c <=? hi))%N.

(** [0-9] *)
Definition isDigit : ascii -> bool := between 48 57.
(** [a-f] *)
Definition isLowerHexLetter : ascii -> bool := between 97 102.
(** [A-F] *)
Definition isUpperHexLetter : ascii -> bool := between 65 70.
(** [a-f0-9] *)
Definition isLowerHex (c : ascii) : bool := isLowerHexLetter c || isDigit c.
(** [0-9a-fA-F] *)
Definition isHex (c : ascii) : bool :=
  isDigit c || isLowerHexLetter c || isUpperHexLetter c.

Definition eqb (a b : ascii) : bool := Ascii.eqb a b.

(** All the bytes of [s] satisfy [p]. *)
Fixpoint all (p : ascii -> bool) (s : string) : bool :=
  match s with
  | EmptyString => true
  | String c s' => p c && all p s'
  end.

(** [s] is made of exactly [n] bytes, all satisfying [p]: the regular
    expression [^p{n}$]. *)
Definition exactly (n : nat) (p : ascii -> bool) (s : string) : bool :=
  (String.length s =? n)%nat && all p s.

End Bytes.

(** ** The [strings] package *)

Module Strings.

(** [strings.Split(s, sep)] for a separator of one byte, the only use
    the normalizer makes of it.  The result is never empty: a string
    without separator is its own single field, [""] included. *)
Fixpoint Split (s : string) (sep : ascii) : list string :=
  match s with
  | EmptyString => [EmptyString]
  | String c s' =>
      if Ascii.eqb c sep then EmptyString :: Split s' sep
      else match Split s' sep with
           | item :: items => String c item :: items
           | [] => [String c EmptyString]
           end
  end.

(** [strings.Join(elems, sep)]. *)
Fixpoint Join (elems : list string) (sep : string) : string :=
  match elems with
  | [] => EmptyString
  | [e] => e
  | e :: rest => e +:+ sep +:+ Join rest sep
  end.

(** [strings.HasSuffix]-like search used by the end-anchored patterns:
    some suffix of [s] satisfies [p]. *)
Fixpoint anySuffix (p : string -> bool) (s : string) : bool :=
  p s || match s with
         | EmptyString => false
         | String _ s' => anySuffix p s'
         end.

(** No byte of [s] is [sep]. *)
Definition noSep (sep : ascii) (s : string) : bool :=
  Bytes.all (fun c => negb (Ascii.eqb c sep)) s.

End Strings.

(** ** [path.Clean] *)

Module Path.

Import Strings.

(** The output buffer of [path.Clean], kept as the list of the path
    elements written so far, and [dotdot], the number of leading
    elements that a [..] may not pop (a leading [../..] prefix).  Go
    keeps byte offsets ([out.w], [dotdot]) into one buffer; [out.w >
    dotdot] there is [dotdot < length out] here. *)
Record lazybuf := { out : list string; dotdot : nat }.

(** One iteration of the loop of [path.Clean], on one path element. *)
Definition cleanElem (rooted : bool) (b : lazybuf) (elem : string) : lazybuf :=
  if String.eqb elem "" then b                       (* empty path element *)
  else if String.eqb elem "." then b                 (* . element *)
  else if String.eqb elem ".." then                  (* .. element *)
    if (dotdot b <? length (out b))%nat then         (* can backtrack *)
      {| out := removelast (out b); dotdot := dotdot b |}
    else if negb rooted then                         (* append .. element *)
      {| out := out b ++ [".."]; dotdot := S (length (out b)) |}
    else b
  else {| out := out b ++ [elem]; dotdot := dotdot b |}. (* real element *)

Definition isRooted (path : string) : bool :=
  match path with
  | String c _ => Ascii.eqb c "/"
  | EmptyString => false
  end.

(** [path.Clean(path)]: the shortest path equivalent to [path] by
    lexical processing.  The loop of [path.Clean] reads one path element
    per iteration, a slash closing it; here the elements are the fields
    of [Split], taken in the same order.  The result starts with a slash
    if [path] does, and is the dot where nothing is left. *)
Definition Clean (path : string) : string :=
  if String.eqb path "" then "."
  else
    let rooted := isRooted path in
    let b := foldl (cleanElem rooted) {| out := []; dotdot := 0 |} (Split path "/") in
    if rooted then "/" +:+ Join (out b) "/"
    else match out b with
         | [] => "."
         | _ => Join (out b) "/"
         end.

(** A real path element. *)
Definition isName (e : string) : Prop :=
  e <> "" /\ e <> "." /\ e <> ".." /\ noSep "/" e = true.

(** The fields of a cleaned path: the root, a rooted path, the dot, or
    a relative path that may start with [..] elements. *)
Inductive cleanItems : list string -> Prop :=
| clean_root : cleanItems [""; ""]
| clean_rooted names :
    names <> [] -> Forall isName names -> cleanItems ("" :: names)
| clean_dot : cleanItems ["."]
| clean_relative k names :
    replicate k ".." ++ names <> [] -> Forall isName names ->
    cleanItems (replicate k ".." ++ names).

(** What the loop of [Clean] keeps true of its buffer. *)
Definition bufferOk (rooted : bool) (b : lazybuf) : Prop :=
  exists names, out b = replicate (dotdot b) ".." ++ names
                /\ Forall isName names
                /\ (rooted = true -> dotdot b = 0).

End Path.

(** ** The [govalidator] predicates and the two extension patterns *)

Module Govalidator.

Import Bytes.

(** A pattern made of runs [p{n}], anchored at both ends: every run
    consumes exactly [n] bytes of the class [p]. *)
Fixpoint matchRun (n : nat) (p : ascii -> bool) (s : string) : option string :=
  match n with
  | O => Some s
  | S n' =>
      match s with
      | String c s' => if p c then matchRun n' p s' else None
      | EmptyString => None
      end
  end.

Fixpoint matchRuns (runs : list (nat * (ascii -> bool))) (s : string) : bool :=
  match runs with
  | [] => String.eqb s ""
  | (n, p) :: runs' =>
      match matchRun n p s with
      | Some rest => matchRuns runs' rest
      | None => false
      end
  end.

Definition byte (c : ascii) : ascii -> bool := Ascii.eqb c.

(** [IsHash]: [^[a-f0-9]{len}$], with [len] 32 for md5, 40 for sha1 and
    64 for sha256. *)
Definition IsMD5 : string -> bool := matchRuns [(32, isLowerHex)].
Definition IsSHA1 : string -> bool := matchRuns [(40, isLowerHex)].
Definition IsSHA256 : string -> bool := matchRuns [(64, isLowerHex)].

(** [IsNumeric]: the empty string, or [^[0-9]+$]. *)
Definition IsNumeric (str : string) : bool :=
  if String.eqb str "" then true
  else all isDigit str.

(** [IsHexadecimal]: [^[0-9a-fA-F]+$]. *)
Definition IsHexadecimal (str : string) : bool :=
  negb (String.eqb str "") && all isHex str.

(** [IsUUID]:
    [^[0-9a-f]{8}-[0-9a-f]{4}-[0-9a-f]{4}-[0-9a-f]{4}-[0-9a-f]{12}$]. *)
Definition IsUUID : string -> bool :=
  matchRuns [(8, isLowerHex); (1, byte "-"); (4, isLowerHex); (1, byte "-");
             (4, isLowerHex); (1, byte "-"); (4, isLowerHex); (1, byte "-");
             (12, isLowerHex)].

(** [[89ab]] *)
Definition isVariant (c : ascii) : bool :=
  byte "8" c || byte "9" c || byte "a" c || byte "b" c.

(** [IsUUIDv4]:
    [^[0-9a-f]{8}-[0-9a-f]{4}-4[0-9a-f]{3}-[89ab][0-9a-f]{3}-[0-9a-f]{12}$]. *)
Definition IsUUIDv4 : string -> bool :=
  matchRuns [(8, isLowerHex); (1, byte "-"); (4, isLowerHex); (1, byte "-");
             (1, byte "4"); (3, isLowerHex); (1, byte "-");
             (1, isVariant); (3, isLowerHex); (1, byte "-");
             (12, isLowerHex)].

End Govalidator.

Module Extensions.

Import Bytes Strings.

(** The upper-case form of a lower-case ASCII letter; other bytes are
    unchanged. *)
Definition upper (c : ascii) : ascii :=
  if between 97 122 c then ascii_of_N (code c - 32) else c.

(** What one literal byte [c] of a pattern under the flag [(?i)]
    accepts at the head of [s]: [c] itself, its upper-case form, and the
    other members of its case-folding orbit, which for an ASCII letter
    exist only for [s] (U+017F, bytes C5 BF) and [k] (U+212A, bytes E2
    84 AA).  Returns what follows. *)
Definition foldByte (c : ascii) (s : string) : option string :=
  match s with
  | String a rest =>
      if Ascii.eqb a c || Ascii.eqb a (upper c) then Some rest
      else if Ascii.eqb c "s" && Ascii.eqb a (ascii_of_N 197) then
        match rest with
        | String b rest' => if Ascii.eqb b (ascii_of_N 191) then Some rest' else None
        | EmptyString => None
        end
      else if Ascii.eqb c "k" && Ascii.eqb a (ascii_of_N 226) then
        match rest with
        | String b (String d rest') =>
            if Ascii.eqb b (ascii_of_N 132) && Ascii.eqb d (ascii_of_N 170)
            then Some rest' else None
        | _ => None
        end
      else None
  | EmptyString => None
  end.

(** [(?i)lit$] tried at the head of [s]. *)
Fixpoint matchFold (lit s : string) : bool :=
  match lit with
  | EmptyString => String.eqb s ""
  | String c lit' =>
      match foldByte c s with
      | Some rest => matchFold lit' rest
      | None => false
      end
  end.

(** [(?i)\.(?:e1|...|en)$] tried at the head of [t]. *)
Definition extensionAt (exts : list string) (t : string) : bool :=
  existsb (fun ext => matchFold (String "." ext) t) exts.

(** [MatchString] of [(?i)\.(?:e1|...|en)$]: the pattern is not
    anchored on the left, so it is tried at every position. *)
Definition extensionRegex (exts : list string) (s : string) : bool :=
  anySuffix (extensionAt exts) s.

Definition imageExtensions : list string :=
  ["png"; "jpg"; "jpeg"; "svg"; "tif"; "tiff"; "gif"; "ico"].

Definition fontExtensions : list string := ["ttf"; "woff"].

(** [imageExtensionRegex.MatchString], for
    [(?i)\.(?:png|jpg|jpeg|svg|tif|tiff|gif|ico)$]. *)
Definition imageExtensionRegex : string -> bool := extensionRegex imageExtensions.

(** [fontExtensionRegex.MatchString], for [(?i)\.(?:ttf|woff)$]. *)
Definition fontExtensionRegex : string -> bool := extensionRegex fontExtensions.

End Extensions.

(** ** What the normalizer takes from other packages

    [regexp] (the syntax of the patterns is the configuration's, and
    a compiled pattern is only ever asked [MatchString]), [govalidator.IsIP]
    (which is [net.ParseIP(str) != nil]) and the query parser of
    [net/url] ([ParseQuery] gives the decoded key/value pairs in the
    order of the query string, malformed pairs dropped) are used through
    their interface. *)

Class Library := {
  CompiledRegexp : Type;
  regexpCompile : string -> option CompiledRegexp;
  MatchString : CompiledRegexp -> string -> bool;
  IsIP : string -> bool;
  ParseQuery : string -> list (string * string);
}.

(** [regexp.MustCompile] panics where [regexp.Compile] fails. *)
Definition MustCompile `{Library} (str : string) : outcome CompiledRegexp :=
  match regexpCompile str with
  | Some compiled => Returns compiled
  | None => Panics
  end.

(** [url.URL], the two fields the normalizer reads. *)
Record URL := { Path : string; RawQuery : string }.

(** [u.Query()]: the map of [url.Values], built by appending every
    value to the slice kept under its key. *)
Definition Query `{Library} (u : URL) : gmap string (list string) :=
  foldl (fun (m : gmap string (list string)) (kv : string * string) =>
           <[kv.1 := default [] (m !! kv.1) ++ [kv.2]]> m)
        ∅ (ParseQuery (RawQuery u)).

(** Modelled from the spec: [event.HttpRequest] (package [pkg/event]),
    an externally owned record with at least [Method], [URL] and a
    mutable [EventKey]; [Other] stands for the fields the normalizer
    never touches. *)
Record HttpRequest (Other : Type) := {
  Method : string;
  EventURL : URL;
  EventKey : string;
  OtherFields : Other;
}.

Arguments Method {Other} _.
Arguments EventURL {Other} _.
Arguments EventKey {Other} _.
Arguments OtherFields {Other} _.

Definition setEventKey {Other : Type} (e : HttpRequest Other) (key : string)
  : HttpRequest Other :=
  {| Method := Method e; EventURL := EventURL e; EventKey := key;
     OtherFields := OtherFields e |}.

(** ** The normalizer *)

Definition eventKeyFieldSeparator : string := ":".
Definition numberPlaceholder : string := "0".
Definition ipPlaceholder : string := ":ip".
Definition hashPlaceholder : string := ":hash".
Definition uuidPlaceholder : string := ":uuid".
Definition imagePlaceholder : string := ":image".
Definition fontPlaceholder : string := ":font".
Definition pathItemsSeparator : ascii := "/".

Section Normalizer.

Context `{Library}.

Import Strings Path Govalidator Extensions.

Record replacer := {
  regexpCompiled : option CompiledRegexp;
  Regexp : string;
  Replacement : string;
}.

Definition setRegexpCompiled (n : replacer) (compiled : CompiledRegexp) : replacer :=
  {| regexpCompiled := Some compiled; Regexp := Regexp n;
     Replacement := Replacement n |}.

(** [(n *replacer) process(path)]: the result and the receiver as the
    call leaves it. *)
Definition process (n : replacer) (path : string) : outcome (replacer * string) :=
  n ← match regexpCompiled n with
      | None => compiled ← MustCompile (Regexp n); mret (setRegexpCompiled n compiled)
      | Some _ => mret n
      end;
  match regexpCompiled n with
  | Some compiled =>
      if MatchString compiled path then mret (n, Replacement n)
      else mret (n, path)
  | None => Panics
  end.

Record requestNormalizerConfig := {
  GetParamWithEventIdentifier : string;
  ReplaceRules : list replacer;
  SanitizeHashes : bool;
  SanitizeNumbers : bool;
  SanitizeUids : bool;
  SanitizeIps : bool;
  SanitizeImages : bool;
  SanitizeFonts : bool;
}.

(** The [observer] field only receives durations and is left out. *)
Record requestNormalizer := {
  getParamWithEventIdentifier : string;
  replaceRules : list replacer;
  sanitizeHashes : bool;
  sanitizeNumbers : bool;
  sanitizeUids : bool;
  sanitizeIps : bool;
  sanitizeImages : bool;
  sanitizeFonts : bool;
}.

Definition setReplaceRules (rn : requestNormalizer) (rules : list replacer)
  : requestNormalizer :=
  {| getParamWithEventIdentifier := getParamWithEventIdentifier rn;
     replaceRules := rules;
     sanitizeHashes := sanitizeHashes rn;
     sanitizeNumbers := sanitizeNumbers rn;
     sanitizeUids := sanitizeUids rn;
     sanitizeIps := sanitizeIps rn;
     sanitizeImages := sanitizeImages rn;
     sanitizeFonts := sanitizeFonts rn |}.

(** [fmt.Errorf("failed to compile Regexp %s: %w", rep.Regexp, err)] *)
Inductive error : Type :=
| failedToCompileRegexp (pattern : string).

(** The loop of [precompileRegexps]: [range] is what is left of the
    slice to visit, [i] the index, [rules] the slice as the writes so
    far have left it. *)
Fixpoint precompileLoop (i : nat) (range : list replacer) (rules : list replacer)
  : list replacer * option error :=
  match range with
  | [] => (rules, None)
  | rep :: range' =>
      match regexpCompile (Regexp rep) with
      | None => (rules, Some (failedToCompileRegexp (Regexp rep)))
      | Some compiled =>
          precompileLoop (S i) range'
            (alter (fun r => setRegexpCompiled r compiled) i rules)
      end
  end.

(** [(rn *requestNormalizer) precompileRegexps()]: the normalizer as the
    call leaves it, and the error. *)
Definition precompileRegexps (rn : requestNormalizer)
  : requestNormalizer * option error :=
  let (rules, err) := precompileLoop 0 (replaceRules rn) (replaceRules rn) in
  (setReplaceRules rn rules, err).

(** [NewFromConfig(config)]: the normalizer and the error it returns,
    one of them [nil]. *)
Definition NewFromConfig (config : requestNormalizerConfig)
  : option requestNormalizer * option error :=
  let normalizer :=
    {| getParamWithEventIdentifier := GetParamWithEventIdentifier config;
       replaceRules := ReplaceRules config;
       sanitizeHashes := SanitizeHashes config;
       sanitizeNumbers := SanitizeNumbers config;
       sanitizeUids := SanitizeUids config;
       sanitizeIps := SanitizeIps config;
       sanitizeImages := SanitizeImages config;
       sanitizeFonts := SanitizeFonts config |} in
  match precompileRegexps normalizer with
  | (_, Some err) => (None, Some err)
  | (normalizer, None) => (Some normalizer, None)
  end.

(** The first loop of [normalizePath]: every [rule] is a copy of the
    slice element, so what [process] does to its receiver is lost. *)
Fixpoint rewriteLoop (range : list replacer) (rawPath : string) : outcome string :=
  match range with
  | [] => mret rawPath
  | rule :: range' =>
      res ← process rule rawPath;
      rewriteLoop range' res.2
  end.

(** The second loop of [normalizePath]: [todo] iterations are left, at
    index [i], over the slice [pathItems] written in place. *)
Fixpoint sanitizeLoop (rn : requestNormalizer) (itemsCount : nat)
    (todo i : nat) (pathItems : list string) : list string :=
  match todo with
  | O => pathItems
  | S todo' =>
      let continue := sanitizeLoop rn itemsCount todo' (S i) in
      match pathItems !! i with
      | None => pathItems
      | Some item =>
          if String.eqb item "" then continue pathItems
          else if sanitizeHashes rn && (IsMD5 item || IsSHA1 item || IsSHA256 item)
          then continue (<[i := hashPlaceholder]> pathItems)
          else if sanitizeNumbers rn && (IsNumeric item || IsHexadecimal item)
          then continue (<[i := numberPlaceholder]> pathItems)
          else if sanitizeUids rn && (IsUUID item || IsUUIDv4 item)
          then continue (<[i := uuidPlaceholder]> pathItems)
          else if sanitizeIps rn && IsIP item
          then continue (<[i := ipPlaceholder]> pathItems)
          else if (i + 1 =? itemsCount)%nat then
            if sanitizeImages rn && imageExtensionRegex item
            then continue (<[i := imagePlaceholder]> pathItems)
            else if sanitizeFonts rn && fontExtensionRegex item
            then continue (<[i := fontPlaceholder]> pathItems)
            else continue pathItems
          else continue pathItems
      end
  end.

(** [(rn *requestNormalizer) normalizePath(rawPath)] *)
Definition normalizePath (rn : requestNormalizer) (rawPath : string) : outcome string :=
  if String.eqb rawPath "" then mret "/"
  else
    rawPath ← rewriteLoop (replaceRules rn) rawPath;
    let pathItems := Split (Clean rawPath) pathItemsSeparator in
    let itemsCount := length pathItems in
    let pathItems := sanitizeLoop rn itemsCount itemsCount 0 pathItems in
    mret (Join pathItems (String pathItemsSeparator "")).

Context {Other : Type}.

(** [(rn *requestNormalizer) getNormalizedEventKey(event)] *)
Definition getNormalizedEventKey (rn : requestNormalizer) (event : HttpRequest Other)
  : outcome string :=
  let eventIdentifiers := [Method event] in
  normalized ← normalizePath rn (Path (EventURL event));
  let eventIdentifiers := eventIdentifiers ++ [normalized] in
  let eventIdentifiers :=
    if negb (String.eqb (getParamWithEventIdentifier rn) "") then
      match Query (EventURL event) !! getParamWithEventIdentifier rn with
      | Some operationNames => eventIdentifiers ++ operationNames
      | None => eventIdentifiers
      end
    else eventIdentifiers in
  mret (Join eventIdentifiers eventKeyFieldSeparator).

(** The body of the loop of [Run], on one received event: the event as
    it is sent on. *)
Definition Run_body (rn : requestNormalizer) (newEvent : HttpRequest Other)
  : outcome (HttpRequest Other) :=
  if negb (String.eqb (EventKey newEvent) "") then mret newEvent
  else
    key ← getNormalizedEventKey rn newEvent;
    mret (setEventKey newEvent key).

End Normalizer.

(** ** The stage: [Run] and its two channels

    [Run] starts one goroutine that receives from [inputEventsChan]
    until the channel is closed and drained, sends every event on
    [outputEventsChan], and closes it when it returns.  The producer
    sends the events of [upstream] in order and then closes the input
    channel.  Both channels are FIFO queues; which of the producer and
    the worker moves next is not determined. *)

Section Stage.

Context `{Library} {Other : Type}.

Inductive workerState : Type :=
| Receiving                              (* at the head of the loop *)
| Sending (newEvent : HttpRequest Other) (* at [outputEventsChan <- newEvent] *)
| Finished                               (* returned, output closed *)
| Crashed.                               (* panicked *)

Record stage := {
  upstream : list (HttpRequest Other);         (* not sent yet *)
  inputEventsChan : list (HttpRequest Other);  (* sent, not received yet *)
  inputClosed : bool;
  worker : workerState;
  outputEventsChan : list (HttpRequest Other); (* sent by the worker so far *)
  outputClosed : bool;
}.

(** The stage when [Run] is called, in front of a producer that is to
    send [events]. *)
Definition start (events : list (HttpRequest Other)) : stage :=
  {| upstream := events; inputEventsChan := []; inputClosed := false;
     worker := Receiving; outputEventsChan := []; outputClosed := false |}.

Inductive step (rn : requestNormalizer) : stage -> stage -> Prop :=
| step_produce e up inp w outp oc :
    step rn
      {| upstream := e :: up; inputEventsChan := inp; inputClosed := false;
         worker := w; outputEventsChan := outp; outputClosed := oc |}
      {| upstream := up; inputEventsChan := inp ++ [e]; inputClosed := false;
         worker := w; outputEventsChan := outp; outputClosed := oc |}
| step_close_input inp w outp oc :
    step rn
      {| upstream := []; inputEventsChan := inp; inputClosed := false;
         worker := w; outputEventsChan := outp; outputClosed := oc |}
      {| upstream := []; inputEventsChan := inp; inputClosed := true;
         worker := w; outputEventsChan := outp; outputClosed := oc |}
| step_receive e e' up inp ic outp oc :
    Run_body rn e = Returns e' ->
    step rn
      {| upstream := up; inputEventsChan := e :: inp; inputClosed := ic;
         worker := Receiving; outputEventsChan := outp; outputClosed := oc |}
      {| upstream := up; inputEventsChan := inp; inputClosed := ic;
         worker := Sending e'; outputEventsChan := outp; outputClosed := oc |}
| step_panic e up inp ic outp oc :
    Run_body rn e = Panics ->
    step rn
      {| upstream := up; inputEventsChan := e :: inp; inputClosed := ic;
         worker := Receiving; outputEventsChan := outp; outputClosed := oc |}
      {| upstream := up; inputEventsChan := inp; inputClosed := ic;
         worker := Crashed; outputEventsChan := outp; outputClosed := oc |}
| step_send e up inp ic outp oc :
    step rn
      {| upstream := up; inputEventsChan := inp; inputClosed := ic;
         worker := Sending e; outputEventsChan := outp; outputClosed := oc |}
      {| upstream := up; inputEventsChan := inp; inputClosed := ic;
         worker := Receiving; outputEventsChan := outp ++ [e]; outputClosed := oc |}
| step_finish up outp oc :
    step rn
      {| upstream := up; inputEventsChan := []; inputClosed := true;
         worker := Receiving; outputEventsChan := outp; outputClosed := oc |}
      {| upstream := up; inputEventsChan := []; inputClosed := true;
         worker := Finished; outputEventsChan := outp; outputClosed := true |}.

(** No step is possible. *)
Definition stuck (rn : requestNormalizer) (s : stage) : Prop :=
  forall s', ~ step rn s s'.

(** The event the worker sends for [e], when [Run_body] returns. *)
Definition forwarded (rn : requestNormalizer) (e : HttpRequest Other)
  : HttpRequest Other :=
  match Run_body rn e with
  | Returns e' => e'
  | Panics => e
  end.

(** The event the worker holds between its receive and its send. *)
Definition held (w : workerState) : list (HttpRequest Other) :=
  match w with
  | Sending e => [e]
  | _ => []
  end.

(** What is true of the stage all along, in front of a producer of [events]. *)
Definition stageOk (rn : requestNormalizer) (events : list (HttpRequest Other))
    (s : stage) : Prop :=
  forwarded rn <$> events
  = outputEventsChan s ++ held (worker s)
    ++ (forwarded rn <$> (inputEventsChan s ++ upstream s))
  /\ worker s <> Crashed
  /\ (outputClosed s = true <-> worker s = Finished)
  /\ (worker s = Finished -> inputEventsChan s = [] /\ inputClosed s = true)
  /\ (inputClosed s = true -> upstream s = []).

(** The number of steps the stage has left. *)
Definition stepsLeft (s : stage) : nat :=
  3 * length (upstream s) + 2 * length (inputEventsChan s)
  + (if inputClosed s then 0 else 1)
  + match worker s with
    | Receiving => 1
    | Sending _ => 2
    | Finished | Crashed => 0
    end.

End Stage.

(** ** The sanitizer as the specification words it

    Section 4.2 of the specification: every non-empty segment is tested
    against the enabled heuristics in a fixed priority order, and the
    first match gives the placeholder.  These definitions follow that
    text; they are compared with [sanitizeLoop] below. *)

Module Spec.

Section Spec.

Context `{Library}.

Import Govalidator Extensions.

Record heuristic := {
  enabled : bool;
  matches : string -> bool;
  placeholder : string;
}.

Definition hashes (rn : requestNormalizer) : heuristic :=
  {| enabled := sanitizeHashes rn;
     matches := fun s => IsMD5 s || IsSHA1 s || IsSHA256 s;
     placeholder := hashPlaceholder |}.

Definition numbers (rn : requestNormalizer) : heuristic :=
  {| enabled := sanitizeNumbers rn;
     matches := fun s => IsNumeric s || IsHexadecimal s;
     placeholder := numberPlaceholder |}.

Definition uuids (rn : requestNormalizer) : heuristic :=
  {| enabled := sanitizeUids rn;
     matches := fun s => IsUUID s || IsUUIDv4 s;
     placeholder := uuidPlaceholder |}.

Definition ips (rn : requestNormalizer) : heuristic :=
  {| enabled := sanitizeIps rn;
     matches := IsIP;
     placeholder := ipPlaceholder |}.

Definition images (rn : requestNormalizer) : heuristic :=
  {| enabled := sanitizeImages rn;
     matches := imageExtensionRegex;
     placeholder := imagePlaceholder |}.

Definition fonts (rn : requestNormalizer) : heuristic :=
  {| enabled := sanitizeFonts rn;
     matches := fontExtensionRegex;
     placeholder := fontPlaceholder |}.

(** The heuristics a segment is tested against, in priority order;
    [last] tells whether it is the last segment. *)
Definition heuristics (rn : requestNormalizer) (last : bool) : list heuristic :=
  [hashes rn; numbers rn; uuids rn; ips rn]
  ++ (if last then [images rn; fonts rn] else []).

(** First match wins. *)
Definition firstMatch (hs : list heuristic) (segment : string) : option heuristic :=
  find (fun h => enabled h && matches h segment) hs.

(** The segment at index [i] out of [n], sanitized. *)
Definition sanitizeSegment (rn : requestNormalizer) (n i : nat) (segment : string)
  : string :=
  if String.eqb segment "" then segment
  else match firstMatch (heuristics rn (i + 1 =? n)%nat) segment with
       | Some h => placeholder h
       | None => segment
       end.

(** Rewrite rules, as section 4.1 has them: the replacement if the
    pattern matches, the path otherwise; in configured order. *)
Definition apply (compiled : CompiledRegexp) (replacement rawPath : string) : string :=
  if MatchString compiled rawPath then replacement else rawPath.

End Spec.

End Spec.

(** ** Rules, precompiled normalizers and the sanitizer as one function *)

Section Rules.

Context `{Library}.

(** The pattern [process] matches with: the compiled one, or else the
    one it compiles on the spot. *)
Definition ruleRegexp (n : replacer) : option CompiledRegexp :=
  match regexpCompiled n with
  | Some compiled => Some compiled
  | None => regexpCompile (Regexp n)
  end.

(** Section 4.1 on one rule, and on the rules in configured order. *)
Definition applyRule (n : replacer) (rawPath : string) : string :=
  match ruleRegexp n with
  | Some compiled => Spec.apply compiled (Replacement n) rawPath
  | None => rawPath
  end.

Definition applyRules (rules : list replacer) (rawPath : string) : string :=
  foldl (fun path rule => applyRule rule path) rawPath rules.

(** Every rule carries the compiled form of its own pattern. *)
Definition precompiled (rules : list replacer) : Prop :=
  Forall (fun r => exists compiled,
              regexpCompiled r = Some compiled
              /\ regexpCompile (Regexp r) = Some compiled) rules.

(** Steps 3 to 5 of section 4.2, on the rewritten path. *)
Definition sanitizeRewritten (rn : requestNormalizer) (rawPath : string) : string :=
  let segments := Strings.Split (Path.Clean rawPath) "/" in
  Strings.Join (imap (Spec.sanitizeSegment rn (length segments)) segments) "/".

(** [IsIP] refuses the placeholders that are tested against it. *)
Definition placeholdersAreNotIPs : Prop :=
  Forall (fun p => IsIP p = false)
         [hashPlaceholder; uuidPlaceholder; imagePlaceholder; fontPlaceholder].

(** No rule's replacement is matched by a rule's pattern. *)
Definition noReplacementMatched (rn : requestNormalizer) : Prop :=
  forall r1 r2 compiled,
    r1 ∈ replaceRules rn -> r2 ∈ replaceRules rn ->
    ruleRegexp r1 = Some compiled ->
    MatchString compiled (Replacement r2) = false.

(** No rule's pattern matches [path]. *)
Definition rulesSilentOn (rn : requestNormalizer) (path : string) : Prop :=
  forall r compiled,
    r ∈ replaceRules rn -> regexpCompiled r = Some compiled ->
    MatchString compiled path = false.

(** The values bound to [name], in the order of the query string. *)
Definition valuesOf (name : string) (pairs : list (string * string)) : list string :=
  (filter (fun kv => kv.1 = name) pairs).*2.

(** Section 4.3: the identifiers that follow the method and the path. *)
Definition operationNames (rn : requestNormalizer) (u : URL) : list string :=
  if String.eqb (getParamWithEventIdentifier rn) "" then []
  else valuesOf (getParamWithEventIdentifier rn) (ParseQuery (RawQuery u)).

End Rules.

(** ** An instance of the library on plain inputs

    The definitions above run on any [Library], and every general
    theorem below holds for any.  This one serves to evaluate them; it
    is exact on the inputs it takes and is no model of the rest:
    - patterns free of metacharacters, which [regexp] compiles to a
      search of the literal; it refuses every other pattern, where
      [regexp] refuses the malformed ones only;
    - dotted-quad IPv4 literals without leading zeros;
    - queries cut at [&], each pair cut at its first [=], both halves
      unescaped ([+] and [%XX]), pairs with a [;] or a malformed escape
      dropped. *)

Module Plain.

Import Bytes Strings.

Definition isMeta (c : ascii) : bool :=
  existsb (Ascii.eqb c)
    ["\"; "."; "+"; "*"; "?"; "("; ")"; "|"; "["; "]"; "{"; "}"; "^"; "$"]%char.

Definition isPlain (c : ascii) : bool := (code c <? 128)%N && negb (isMeta c).

Definition compile (pattern : string) : option string :=
  if all isPlain pattern then Some pattern else None.

Definition matchString (literal s : string) : bool :=
  anySuffix (String.prefix literal) s.

Fixpoint decimal (acc : N) (s : string) : N :=
  match s with
  | EmptyString => acc
  | String c s' => decimal (10 * acc + (code c - 48))%N s'
  end.

Definition isOctet (field : string) : bool :=
  negb (String.eqb field "") && all isDigit field
  && (String.length field <=? 3)%nat
  && (String.eqb field "0" || negb (String.prefix "0" field))
  && (decimal 0 field <=? 255)%N.

Definition isIPv4 (s : string) : bool :=
  match Split s "." with
  | [a; b; c; d] => isOctet a && isOctet b && isOctet c && isOctet d
  | _ => false
  end.

Definition unhex (c : ascii) : N :=
  if isDigit c then (code c - 48)%N
  else if isLowerHexLetter c then (code c - 97 + 10)%N
  else (code c - 65 + 10)%N.

Fixpoint unescape (s : string) : option string :=
  match s with
  | EmptyString => Some EmptyString
  | String c s' =>
      if Ascii.eqb c "%" then
        match s' with
        | String a (String b rest) =>
            if isHex a && isHex b then
              String (ascii_of_N (16 * unhex a + unhex b)) <$> unescape rest
            else None
        | _ => None
        end
      else if Ascii.eqb c "+" then String " " <$> unescape s'
      else String c <$> unescape s'
  end.

(** [strings.Cut(s, sep)], without its third result. *)
Fixpoint Cut (s : string) (sep : ascii) : string * string :=
  match s with
  | EmptyString => (EmptyString, EmptyString)
  | String c s' =>
      if Ascii.eqb c sep then (EmptyString, s')
      else let (before, after) := Cut s' sep in (String c before, after)
  end.

Definition parsePair (pair : string) : option (string * string) :=
  if negb (all (fun c => negb (Ascii.eqb c ";")) pair) then None
  else if String.eqb pair "" then None
  else
    let (key, value) := Cut pair "=" in
    key ← unescape key; value ← unescape value; Some (key, value).

Definition parseQuery (query : string) : list (string * string) :=
  omap parsePair (Split query "&").

#[export] Instance library : Library := {|
  CompiledRegexp := string;
  regexpCompile := compile;
  MatchString := matchString;
  IsIP := isIPv4;
  ParseQuery := parseQuery;
|}.

End Plain.

(** ** Concrete normalizers and events, on the plain library *)

Module Examples.

Import Plain.

(** A rule as the configuration gives it, and as [NewFromConfig] leaves it. *)
Definition rule (pattern replacement : string) : replacer :=
  {| regexpCompiled := None; Regexp := pattern; Replacement := replacement |}.

Definition compiledRule (pattern replacement : string) : replacer :=
  {| regexpCompiled := Some pattern; Regexp := pattern; Replacement := replacement |}.

Definition config (rules : list replacer) (toggles : bool) (param : string)
  : requestNormalizerConfig :=
  {| GetParamWithEventIdentifier := param; ReplaceRules := rules;
     SanitizeHashes := toggles; SanitizeNumbers := toggles;
     SanitizeUids := toggles; SanitizeIps := toggles;
     SanitizeImages := toggles; SanitizeFonts := toggles |}.

Definition normalizer (rules : list replacer) (toggles : bool) (param : string)
  : requestNormalizer :=
  {| getParamWithEventIdentifier := param; replaceRules := rules;
     sanitizeHashes := toggles; sanitizeNumbers := toggles;
     sanitizeUids := toggles; sanitizeIps := toggles;
     sanitizeImages := toggles; sanitizeFonts := toggles |}.

(** One rule, every sanitizer off. *)
Definition plainConfig : requestNormalizerConfig :=
  config [rule "/a/b" "/x"] false "".
Definition plainNormalizer : requestNormalizer :=
  normalizer [compiledRule "/a/b" "/x"] false "".

(** One rule, every sanitizer on, the parameter [op] in the key. *)
Definition fullConfig : requestNormalizerConfig :=
  config [rule "/v2/orders/123" "/legacy"] true "op".
Definition fullNormalizer : requestNormalizer :=
  normalizer [compiledRule "/v2/orders/123" "/legacy"] true "op".

(** Only the numbers sanitizer, the parameter [op] in the key. *)
Definition numbersConfig : requestNormalizerConfig :=
  {| GetParamWithEventIdentifier := "op"; ReplaceRules := [];
     SanitizeHashes := false; SanitizeNumbers := true;
     SanitizeUids := false; SanitizeIps := false;
     SanitizeImages := false; SanitizeFonts := false |}.
Definition numbersNormalizer : requestNormalizer :=
  {| getParamWithEventIdentifier := "op"; replaceRules := [];
     sanitizeHashes := false; sanitizeNumbers := true;
     sanitizeUids := false; sanitizeIps := false;
     sanitizeImages := false; sanitizeFonts := false |}.

(** A pattern that does not compile, after one that does. *)
Definition brokenConfig : requestNormalizerConfig :=
  config [rule "/ok" "/fine"; rule "(" "/never"] true "".

Definition request (method path query key : string) : HttpRequest unit :=
  {| Method := method; EventURL := {| Path := path; RawQuery := query |};
     EventKey := key; OtherFields := tt |}.

Definition listUsers : HttpRequest unit :=
  request "GET" "/users/42" "op=list&op=summary" "".

Definition preset : HttpRequest unit :=
  request "GET" "/users/42" "op=list" "preset".

End Examples.

(** ** The normalizer before its patterns are compiled *)

Section Uncompiled.

Context `{Library}.

(** The struct literal [NewFromConfig] starts from, before
    [precompileRegexps]: the rules are those of the configuration. *)
Definition uncompiled (config : requestNormalizerConfig) : requestNormalizer :=
  {| getParamWithEventIdentifier := GetParamWithEventIdentifier config;
     replaceRules := ReplaceRules config;
     sanitizeHashes := SanitizeHashes config;
     sanitizeNumbers := SanitizeNumbers config;
     sanitizeUids := SanitizeUids config;
     sanitizeIps := SanitizeIps config;
     sanitizeImages := SanitizeImages config;
     sanitizeFonts := SanitizeFonts config |}.

(** The configuration whose rule slice a call of [NewFromConfig] has
    written: the normalizer shares the slice with the configuration. *)
Definition withReplaceRules (config : requestNormalizerConfig)
    (rules : list replacer) : requestNormalizerConfig :=
  {| GetParamWithEventIdentifier := GetParamWithEventIdentifier config;
     ReplaceRules := rules;
     SanitizeHashes := SanitizeHashes config;
     SanitizeNumbers := SanitizeNumbers config;
     SanitizeUids := SanitizeUids config;
     SanitizeIps := SanitizeIps config;
     SanitizeImages := SanitizeImages config;
     SanitizeFonts := SanitizeFonts config |}.

(** The six placeholders. *)
Definition placeholders : list string :=
  [hashPlaceholder; numberPlaceholder; uuidPlaceholder; ipPlaceholder;
   imagePlaceholder; fontPlaceholder].

End Uncompiled.

Section Off.

Context `{Library}.

(** Every sanitizer is off. *)
Definition sanitizersOff (rn : requestNormalizer) : Prop :=
  sanitizeHashes rn = false /\ sanitizeNumbers rn = false
  /\ sanitizeUids rn = false /\ sanitizeIps rn = false
  /\ sanitizeImages rn = false /\ sanitizeFonts rn = false.

End Off.

Section CompiledOf.

Context `{Library}.

(** [r'] is [r] with the compiled form of its pattern. *)
Definition compiledOf (r r' : replacer) : Prop :=
  exists compiled,
    regexpCompile (Regexp r) = Some compiled /\ r' = setRegexpCompiled r compiled.

End CompiledOf.

(** ** The stage with its latency observer

    After every send the worker calls [observeDuration], which gives
    the observer, if there is one, the time elapsed since the receive.
    The observer is modelled by the list of the values it has been
    given, the elapsed time by a value the clock supplies. *)

Section Observed.

Context `{Library} {Other Duration : Type}.

(** [SetPrometheusObserver(observer)]: the field holds the observer. *)
Definition SetPrometheusObserver (observer : list Duration) : option (list Duration) :=
  Some observer.

(** [observeDuration(start)], on the observer field, [elapsed] being
    [time.Since(start).Seconds()]. *)
Definition observeDuration (observer : option (list Duration)) (elapsed : Duration)
  : option (list Duration) :=
  match observer with
  | Some observed => Some (observed ++ [elapsed])
  | None => None
  end.

Record observedStage := {
  channels : stage (Other := Other);  (* the channels and the worker *)
  observing : bool;                   (* the worker is at [observeDuration] *)
  observer : option (list Duration);  (* the field [rn.observer] *)
}.

Inductive observedStep (rn : requestNormalizer) : observedStage -> observedStage -> Prop :=
| observed_producer s s' obs o :
    (* the producer sends or closes *)
    step rn s s' -> worker s' = worker s ->
    observedStep rn
      {| channels := s; observing := obs; observer := o |}
      {| channels := s'; observing := obs; observer := o |}
| observed_loop_head s s' o :
    (* the worker receives, finishes or panics *)
    step rn s s' -> worker s = Receiving -> worker s' <> Receiving ->
    observedStep rn
      {| channels := s; observing := false; observer := o |}
      {| channels := s'; observing := false; observer := o |}
| observed_send s s' e o :
    (* the worker sends, [observeDuration] comes next *)
    step rn s s' -> worker s = Sending e -> worker s' = Receiving ->
    observedStep rn
      {| channels := s; observing := false; observer := o |}
      {| channels := s'; observing := true; observer := o |}
| observed_observe s o elapsed :
    observedStep rn
      {| channels := s; observing := true; observer := o |}
      {| channels := s; observing := false; observer := observeDuration o elapsed |}.

(** The stage when [Run] is called, with the observer field as it is. *)
Definition observedStart (events : list (HttpRequest Other))
    (o : option (list Duration)) : observedStage :=
  {| channels := start events; observing := false; observer := o |}.

(** What the observed stage keeps true, started with the observer
    field [o]: an observation is due only between a send and the next
    receive; an observer has been given one value for every event sent
    but the one still due; no observer appears where there was none. *)
Definition observedOk (o : option (list Duration)) (os : observedStage) : Prop :=
  (observing os = true -> worker (channels os) = Receiving)
  /\ match o with
     | Some before =>
         exists observed,
           observer os = Some (before ++ observed)
           /\ length observed + (if observing os then 1 else 0)
              = length (outputEventsChan (channels os))
     | None => observer os = None
     end.

(** The number of steps the observed stage has left. *)
Definition observedStepsLeft (os : observedStage) : nat :=
  2 * stepsLeft (channels os) + (if observing os then 1 else 0).

End Observed.

Section SameText.

Context `{Library}.

(** Two rules with the same pattern text and the same replacement. *)
Definition sameText (r1 r2 : replacer) : Prop :=
  Regexp r1 = Regexp r2 /\ Replacement r1 = Replacement r2.

(** Two configurations that agree on everything but their rules. *)
Definition sameSettings (config1 config2 : requestNormalizerConfig) : Prop :=
  GetParamWithEventIdentifier config1 = GetParamWithEventIdentifier config2
  /\ SanitizeHashes config1 = SanitizeHashes config2
  /\ SanitizeNumbers config1 = SanitizeNumbers config2
  /\ SanitizeUids config1 = SanitizeUids config2
  /\ SanitizeIps config1 = SanitizeIps config2
  /\ SanitizeImages config1 = SanitizeImages config2
  /\ SanitizeFonts config1 = SanitizeFonts config2.

End SameText.

(** * Facts about the library models *)

(** ** [strings.Split] and [strings.Join] *)

Module StringFacts.
Import Bytes Strings.

Lemma Split_not_nil s sep : Split s sep <> [].
Proof.
  destruct s as [|c s]; simpl; [discriminate|].
  destruct (Ascii.eqb c sep); [discriminate|].
  destruct (Split s sep); discriminate.
Qed.

Lemma Split_noSep s sep : noSep sep s = true -> Split s sep = [s].
Proof.
  induction s as [|c s IH]; simpl; [done|].
  intros [Hc Hs]%andb_true_iff.
  apply negb_true_iff in Hc. rewrite Hc, (IH Hs). done.
Qed.

Lemma Split_app_sep x r sep :
  noSep sep x = true -> Split (x +:+ String sep r) sep = x :: Split r sep.
Proof.
  induction x as [|c x IH]; simpl.
  - intros _. by rewrite Ascii.eqb_refl.
  - intros [Hc Hx]%andb_true_iff.
    apply negb_true_iff in Hc. rewrite Hc, (IH Hx). done.
Qed.

Lemma Split_Join items sep :
  items <> [] -> Forall (fun x => noSep sep x = true) items ->
  Split (Join items (String sep "")) sep = items.
Proof.
  induction items as [|x [|y items] IH]; intros Hne Hall; [done| |].
  - simpl. apply Split_noSep. by inversion Hall.
  - inversion Hall as [|? ? Hx Hrest]; subst.
    change (Join (x :: y :: items) (String sep ""))
      with (x +:+ String sep "" +:+ Join (y :: items) (String sep "")).
    change (String sep "" +:+ Join (y :: items) (String sep ""))
      with (String sep (Join (y :: items) (String sep ""))).
    rewrite (Split_app_sep _ _ _ Hx). f_equal. by apply IH.
Qed.

Lemma Split_items_noSep s sep :
  Forall (fun x => noSep sep x = true) (Split s sep).
Proof.
  induction s as [|c s IH]; simpl.
  - by repeat constructor.
  - destruct (Ascii.eqb c sep) eqn:Hc.
    + by constructor.
    + destruct (Split s sep) as [|item items].
      * repeat constructor. unfold noSep. simpl. by rewrite Hc.
      * inversion IH as [|? ? Hy Hys]; subst. constructor; [|done].
        unfold noSep in *. simpl. by rewrite Hc.
Qed.

Lemma Join_Split s sep : Join (Split s sep) (String sep "") = s.
Proof.
  induction s as [|c s IH]; simpl; [done|].
  destruct (Ascii.eqb c sep) eqn:Hc.
  - apply Ascii.eqb_eq in Hc. subst c.
    pose proof (Split_not_nil s sep).
    destruct (Split s sep) as [|y ys] eqn:E; [done|].
    change (Join ("" :: y :: ys) (String sep "")) with (String sep (Join (y :: ys) (String sep ""))).
    by rewrite IH.
  - pose proof (Split_not_nil s sep).
    destruct (Split s sep) as [|y ys] eqn:E; [done|].
    destruct ys as [|z zs].
    + simpl in *. by rewrite IH.
    + change (Join (String c y :: z :: zs) (String sep "")) with (String c (Join (y :: z :: zs) (String sep ""))).
      by rewrite IH.
Qed.

End StringFacts.

(** ** [path.Clean] *)

Module PathFacts.
Import Bytes Strings Path StringFacts.

Lemma cleanElem_name rooted b e :
  isName e -> cleanElem rooted b e = {| out := out b ++ [e]; dotdot := dotdot b |}.
Proof.
  intros (H1 & H2 & H3 & _). unfold cleanElem.
  apply String.eqb_neq in H1, H2, H3. by rewrite H1, H2, H3.
Qed.

Lemma foldl_cleanElem_names rooted names b :
  Forall isName names ->
  foldl (cleanElem rooted) b names = {| out := out b ++ names; dotdot := dotdot b |}.
Proof.
  intros Hall. revert b. induction Hall as [|e names He _ IH]; intros b; simpl.
  - rewrite app_nil_r. by destruct b.
  - rewrite (cleanElem_name _ _ _ He), IH. simpl. by rewrite <- app_assoc.
Qed.

Lemma replicate_snoc {A} k (x : A) : replicate k x ++ [x] = replicate (S k) x.
Proof. induction k as [|k IH]; simpl; [done|]. by rewrite IH. Qed.

Lemma foldl_cleanElem_dotdots k j :
  foldl (cleanElem false) {| out := replicate j ".."; dotdot := j |} (replicate k "..")
  = {| out := replicate (j + k) ".."; dotdot := j + k |}.
Proof.
  revert j. induction k as [|k IH]; intros j; simpl.
  - by rewrite Nat.add_0_r.
  - unfold cleanElem at 2. simpl. rewrite length_replicate, Nat.ltb_irrefl.
    rewrite replicate_snoc, (IH (S j)). by rewrite Nat.add_succ_r.
Qed.

Lemma Forall_removelast {A} (P : A -> Prop) l : Forall P l -> Forall P (removelast l).
Proof.
  induction 1 as [|x l Hx Hl IH]; simpl; [constructor|].
  destruct l; [constructor|]. by constructor.
Qed.

Lemma cleanElem_ok rooted b e :
  noSep "/" e = true -> bufferOk rooted b -> bufferOk rooted (cleanElem rooted b e).
Proof.
  intros He (names & Hout & Hnames & Hroot). unfold cleanElem.
  destruct (String.eqb_spec e ""); [by exists names|].
  destruct (String.eqb_spec e "."); [by exists names|].
  destruct (String.eqb_spec e "..").
  - destruct (Nat.ltb_spec (dotdot b) (length (out b))) as [Hlt|Hge].
    + assert (names <> []) as Hne.
      { intros ->. rewrite Hout, app_nil_r, length_replicate in Hlt. lia. }
      exists (removelast names). simpl. split; [|split; [|done]].
      * rewrite Hout. by apply removelast_app.
      * by apply Forall_removelast.
    + assert (names = []) as ->.
      { rewrite Hout, length_app, length_replicate in Hge.
        destruct names; [done|]. simpl in Hge. lia. }
      rewrite app_nil_r in Hout.
      destruct rooted; simpl.
      * exists []. by rewrite app_nil_r.
      * exists []. simpl. split; [|split; [constructor|done]].
        rewrite Hout, length_replicate, app_nil_r. apply replicate_snoc.
  - exists (names ++ [e]). simpl. split; [|split; [|done]].
    + by rewrite Hout, app_assoc.
    + apply Forall_app. split; [done|]. by repeat constructor.
Qed.

Lemma foldl_cleanElem_ok rooted elems b :
  Forall (fun e => noSep "/" e = true) elems ->
  bufferOk rooted b -> bufferOk rooted (foldl (cleanElem rooted) b elems).
Proof.
  intros Hall. revert b. induction Hall as [|e elems He _ IH]; intros b Hb; simpl; [done|].
  apply IH. by apply cleanElem_ok.
Qed.

Lemma isName_noSep names :
  Forall isName names -> Forall (fun x => noSep "/" x = true) names.
Proof. intros Hn. eapply Forall_impl; [exact Hn|]. by intros x (_ & _ & _ & ?). Qed.

Lemma cleanItems_noSep items :
  cleanItems items -> Forall (fun x => noSep "/" x = true) items.
Proof.
  destruct 1 as [|names _ Hn| |k names _ Hn].
  - by repeat constructor.
  - constructor; [done|]. by apply isName_noSep.
  - by repeat constructor.
  - apply Forall_app. split; [|by apply isName_noSep].
    apply Forall_replicate. done.
Qed.

(** The fields of [Clean path] are those of a cleaned path. *)
Lemma Split_Clean path : cleanItems (Split (Clean path) "/").
Proof.
  unfold Clean. destruct (String.eqb_spec path ""); [apply clean_dot|].
  set (b := foldl _ _ _).
  assert (bufferOk (isRooted path) b) as (names & Hout & Hnames & Hroot).
  { apply foldl_cleanElem_ok; [apply Split_items_noSep|].
    exists []. simpl. by repeat split. }
  destruct (isRooted path).
  - rewrite Hroot in Hout by done. simpl in Hout. rewrite Hout.
    change ("/" +:+ Join names "/") with ("" +:+ String "/" (Join names "/")).
    rewrite Split_app_sep by done.
    destruct names as [|x names].
    + apply clean_root.
    + rewrite Split_Join; [|done|by apply isName_noSep].
      by apply clean_rooted.
  - destruct (out b) as [|x rest] eqn:E; [apply clean_dot|].
    pose proof (clean_relative (dotdot b) names) as Hc.
    rewrite <- Hout in Hc. specialize (Hc ltac:(done) Hnames).
    rewrite Split_Join; [done|done|]. by apply cleanItems_noSep.
Qed.

Lemma isRooted_Join_name x items :
  x <> "" -> noSep "/" x = true -> isRooted (Join (x :: items) "/") = false.
Proof.
  intros Hne Hx. destruct x as [|c x]; [done|].
  unfold noSep in Hx. simpl in Hx. apply andb_true_iff in Hx as [Hc _].
  apply negb_true_iff in Hc. destruct items; simpl; done.
Qed.

Lemma Join_cons_nonempty x items sep : x <> "" -> Join (x :: items) sep <> "".
Proof. destruct x; [done|]. intros _. by destruct items. Qed.

(** A cleaned path is left as it is by [Clean]. *)
Lemma Clean_Join items :
  cleanItems items -> Clean (Join items "/") = Join items "/".
Proof.
  intros Hc. pose proof (cleanItems_noSep _ Hc) as Hsep.
  destruct Hc as [|names Hne Hn| |k names Hne Hn]; [done| |done|].
  - destruct names as [|x names]; [done|].
    unfold Clean.
    change (String.eqb (Join ("" :: x :: names) "/") "") with false.
    change (isRooted (Join ("" :: x :: names) "/")) with true. cbv iota.
    rewrite Split_Join; [|done|exact Hsep].
    change (foldl (cleanElem true) {| out := []; dotdot := 0 |} ("" :: x :: names))
      with (foldl (cleanElem true) {| out := []; dotdot := 0 |} (x :: names)).
    by rewrite (foldl_cleanElem_names _ _ _ Hn).
  - set (items := replicate k ".." ++ names) in *.
    assert (exists x rest, items = x :: rest /\ x <> "" /\ noSep "/" x = true)
      as (x & rest & Hitems & Hx & Hxs).
    { subst items. destruct k as [|k]; simpl.
      - destruct names as [|x names]; [done|].
        inversion Hn as [|? ? (? & ? & ? & ?) _]; subst. by exists x, names.
      - by eexists _, _. }
    unfold Clean.
    assert (Join items "/" <> "") as Hnonempty.
    { rewrite Hitems. by apply Join_cons_nonempty. }
    apply String.eqb_neq in Hnonempty. rewrite Hnonempty.
    assert (isRooted (Join items "/") = false) as ->.
    { rewrite Hitems. by apply isRooted_Join_name. }
    rewrite Split_Join; [|by rewrite Hitems|exact Hsep]. subst items.
    rewrite foldl_app.
    pose proof (foldl_cleanElem_dotdots k 0) as Hd. simpl in Hd. rewrite Hd.
    rewrite (foldl_cleanElem_names _ _ _ Hn). simpl out.
    destruct (replicate k ".." ++ names); done.
Qed.

Lemma Clean_nonempty path : Clean path <> "".
Proof.
  pose proof (Split_Clean path) as Hc. intros E. rewrite E in Hc. simpl in Hc.
  inversion Hc as [|names Hne Hn| |k names Hne Hn].
  - inversion Hn as [|? ? (? & _) _]; done.
  - destruct k; simpl in *.
    + subst names. inversion Hn as [|? ? (? & _) _]; done.
    + done.
Qed.

End PathFacts.

(** ** The extension patterns and the identifier patterns *)

Module ExtensionFacts.

Import Bytes Strings Govalidator Extensions StringFacts.

Lemma all_impl (p q : ascii -> bool) s :
  (forall c, p c = true -> q c = true) -> all p s = true -> all q s = true.
Proof.
  intros Hpq. induction s as [|c s IH]; simpl; [done|].
  intros [Hc Hs]%andb_true_iff. by rewrite (Hpq _ Hc), IH.
Qed.

Lemma noSep_app sep a b : noSep sep (a +:+ b) = noSep sep a && noSep sep b.
Proof.
  unfold noSep. induction a as [|c a IH]; simpl; [done|].
  by rewrite IH, andb_assoc.
Qed.

Lemma upper_dot c : c <> "."%char -> upper c <> "."%char.
Proof.
  destruct c as [[] [] [] [] [] [] [] []]; vm_compute; congruence.
Qed.

(** What [foldByte] consumes for a byte other than the dot has no dot. *)
Lemma foldByte_noDot c s rest :
  c <> "."%char -> foldByte c s = Some rest ->
  exists pre, s = pre +:+ rest /\ noSep "." pre = true.
Proof.
  intros Hc. unfold foldByte. destruct s as [|a s]; [done|].
  destruct (Ascii.eqb a c || Ascii.eqb a (upper c)) eqn:E.
  - intros [= ->]. exists (String a ""). split; [done|].
    unfold noSep. simpl. rewrite andb_true_r. apply negb_true_iff, Ascii.eqb_neq.
    apply orb_true_iff in E as [E|E]; apply Ascii.eqb_eq in E; subst a;
      [done|by apply upper_dot].
  - destruct (Ascii.eqb c "s" && Ascii.eqb a (ascii_of_N 197)) eqn:E1.
    + apply andb_true_iff in E1 as [_ ->%Ascii.eqb_eq].
      destruct s as [|b s]; [done|].
      destruct (Ascii.eqb b (ascii_of_N 191)) eqn:E2; [|done].
      apply Ascii.eqb_eq in E2 as ->. intros [= ->].
      by exists (String (ascii_of_N 197) (String (ascii_of_N 191) "")).
    + destruct (Ascii.eqb c "k" && Ascii.eqb a (ascii_of_N 226)) eqn:E2; [|done].
      apply andb_true_iff in E2 as [_ ->%Ascii.eqb_eq].
      destruct s as [|b [|d s]]; [done..|].
      destruct (Ascii.eqb b (ascii_of_N 132) && Ascii.eqb d (ascii_of_N 170)) eqn:E3; [|done].
      apply andb_true_iff in E3 as [->%Ascii.eqb_eq ->%Ascii.eqb_eq]. intros [= ->].
      by exists (String (ascii_of_N 226) (String (ascii_of_N 132) (String (ascii_of_N 170) ""))).
Qed.

Lemma matchFold_noDot lit s :
  noSep "." lit = true -> matchFold lit s = true -> noSep "." s = true.
Proof.
  revert s. induction lit as [|c lit IH]; intros s; simpl.
  - intros _ ->%String.eqb_eq. done.
  - unfold noSep at 1. simpl. intros [Hc Hlit]%andb_true_iff.
    apply negb_true_iff, Ascii.eqb_neq in Hc.
    destruct (foldByte c s) as [rest|] eqn:E; [|done].
    intros Hm. destruct (foldByte_noDot _ _ _ Hc E) as (pre & -> & Hpre).
    rewrite noSep_app, Hpre. simpl. by apply IH.
Qed.

Lemma foldByte_dot s rest : foldByte "." s = Some rest -> s = String "." rest.
Proof.
  destruct s as [|a s]; [done|]. unfold foldByte.
  change (upper ".") with "."%char. rewrite orb_diag.
  destruct (Ascii.eqb_spec a "."); [by intros [= ->]; subst|].
  simpl. done.
Qed.

(** Where an extension pattern matches, there is a dot followed by no other. *)
Lemma extensionAt_shape exts t :
  Forall (fun ext => noSep "." ext = true) exts ->
  extensionAt exts t = true ->
  exists t0, t = String "." t0 /\ noSep "." t0 = true.
Proof.
  intros Hexts. unfold extensionAt. rewrite existsb_exists.
  intros (ext & Hin & Hm). simpl in Hm.
  destruct (foldByte "." t) as [rest|] eqn:E; [|done].
  apply foldByte_dot in E as ->. exists rest. split; [done|].
  eapply matchFold_noDot; [|done].
  rewrite Forall_forall in Hexts. by apply Hexts, list_elem_of_In.
Qed.

Lemma anySuffix_noDot exts s :
  Forall (fun ext => noSep "." ext = true) exts ->
  noSep "." s = true -> anySuffix (extensionAt exts) s = false.
Proof.
  intros Hexts. induction s as [|c s IH]; intros Hs.
  - simpl. rewrite orb_false_r. destruct (extensionAt exts "") eqn:E; [|done].
    by destruct (extensionAt_shape _ _ Hexts E) as (? & ? & _).
  - unfold noSep in Hs. simpl in Hs. apply andb_true_iff in Hs as [Hc Hs].
    simpl. rewrite (IH Hs), orb_false_r.
    destruct (extensionAt exts (String c s)) eqn:E; [|done].
    destruct (extensionAt_shape _ _ Hexts E) as (t0 & [= -> ->] & _). done.
Qed.

(** A string with an extension has a dot. *)
Lemma extensionRegex_dot exts s :
  Forall (fun ext => noSep "." ext = true) exts ->
  extensionRegex exts s = true -> noSep "." s = false.
Proof.
  intros Hexts Hm. destruct (noSep "." s) eqn:E; [|done].
  unfold extensionRegex in Hm.
  by rewrite anySuffix_noDot in Hm.
Qed.

Lemma imageExtensions_noDot : Forall (fun ext => noSep "." ext = true) imageExtensions.
Proof. by repeat constructor. Qed.

Lemma fontExtensions_noDot : Forall (fun ext => noSep "." ext = true) fontExtensions.
Proof. by repeat constructor. Qed.

Ltac bytes a := destruct a as [[] [] [] [] [] [] [] []].

(** No image extension and font extension match at the same place. *)
Lemma image_font_disjoint_at t :
  extensionAt imageExtensions t = true -> extensionAt fontExtensions t = false.
Proof.
  intros Hi. destruct (extensionAt_shape _ _ imageExtensions_noDot Hi) as (t0 & -> & _).
  destruct t0 as [|a1 t1]; [done|].
  bytes a1; try reflexivity; try (exfalso; vm_compute in Hi; discriminate).
  all: destruct t1 as [|a2 t2]; [done|].
  all: bytes a2; try reflexivity; try (exfalso; cbn in Hi; discriminate).
Qed.

Lemma image_font_disjoint s :
  imageExtensionRegex s = true -> fontExtensionRegex s = false.
Proof.
  unfold imageExtensionRegex, fontExtensionRegex, extensionRegex.
  induction s as [|c s IH]; [done|].
  cbn [anySuffix]. intros [Hi|Hi]%orb_true_iff.
  - rewrite (image_font_disjoint_at _ Hi). simpl.
    destruct (extensionAt_shape _ _ imageExtensions_noDot Hi) as (t0 & [= -> ->] & Ht0).
    by apply anySuffix_noDot; [apply fontExtensions_noDot|].
  - rewrite (IH Hi), orb_false_r.
    destruct (extensionAt fontExtensions (String c s)) eqn:Hf; [|done].
    destruct (extensionAt_shape _ _ fontExtensions_noDot Hf) as (t0 & [= -> ->] & Ht0).
    by rewrite anySuffix_noDot in Hi; [|apply imageExtensions_noDot|].
Qed.

Lemma matchRun_all n p s rest :
  matchRun n p s = Some rest -> exists pre, s = pre +:+ rest /\ all p pre = true.
Proof.
  revert s. induction n as [|n IH]; intros s; simpl.
  - intros [= ->]. by exists "".
  - destruct s as [|c s]; [done|]. destruct (p c) eqn:Hc; [|done].
    intros (pre & -> & Hpre)%IH. exists (String c pre). simpl. by rewrite Hc, Hpre.
Qed.

Lemma all_app p a b : all p (a +:+ b) = all p a && all p b.
Proof. induction a as [|c a IH]; simpl; [done|]. by rewrite IH, andb_assoc. Qed.

(** Every byte of a string that matches runs belongs to the class of one of them. *)
Lemma matchRuns_all runs s :
  matchRuns runs s = true -> all (fun c => existsb (fun r => r.2 c) runs) s = true.
Proof.
  revert s. induction runs as [|[n p] runs IH]; intros s; simpl.
  - by intros ->%String.eqb_eq.
  - destruct (matchRun n p s) as [rest|] eqn:E; [|done].
    destruct (matchRun_all _ _ _ _ E) as (pre & -> & Hpre). intros Hm.
    rewrite all_app. apply andb_true_iff. split.
    + eapply all_impl; [|exact Hpre]. intros c ->. done.
    + eapply all_impl; [|exact (IH _ Hm)]. intros c ->. apply orb_true_r.
Qed.

Lemma matchRuns_noDot runs s :
  existsb (fun r => r.2 "."%char) runs = false ->
  matchRuns runs s = true -> noSep "." s = true.
Proof.
  intros Hdot Hm. eapply all_impl; [|exact (matchRuns_all _ _ Hm)].
  intros c Hc. apply negb_true_iff, Ascii.eqb_neq. intros ->. congruence.
Qed.

(** A segment with a dot is no hash, no number and no UUID. *)
Lemma dot_not_identifier s :
  noSep "." s = false ->
  IsMD5 s || IsSHA1 s || IsSHA256 s = false
  /\ (s <> "" -> IsNumeric s || IsHexadecimal s = false)
  /\ IsUUID s || IsUUIDv4 s = false.
Proof.
  intros Hs.
  assert (forall runs, existsb (fun r => r.2 "."%char) runs = false ->
                       matchRuns runs s = false) as Hruns.
  { intros runs Hr. destruct (matchRuns runs s) eqn:E; [|done].
    by rewrite (matchRuns_noDot _ _ Hr E) in Hs. }
  assert (forall p, p "."%char = false -> all p s = false) as Hall.
  { intros p Hp. destruct (all p s) eqn:E; [|done].
    rewrite <- Hs. symmetry. eapply all_impl; [|exact E].
    intros c Hc. apply negb_true_iff, Ascii.eqb_neq. intros ->. congruence. }
  split; [|split].
  - unfold IsMD5, IsSHA1, IsSHA256. by rewrite !Hruns.
  - intros Hne. unfold IsNumeric, IsHexadecimal.
    apply String.eqb_neq in Hne. rewrite Hne. by rewrite !Hall.
  - unfold IsUUID, IsUUIDv4. by rewrite !Hruns.
Qed.

End ExtensionFacts.

(** * Facts about the normalizer *)

(** ** The second loop of [normalizePath] *)

Section SanitizerFacts.

Context `{Library}.

Import Strings Path Govalidator Extensions StringFacts PathFacts.

(** One iteration of the second loop writes the sanitized segment at
    its index. *)
Lemma sanitizeLoop_step rn n todo i items item :
  items !! i = Some item ->
  sanitizeLoop rn n (S todo) i items
  = sanitizeLoop rn n todo (S i) (<[i := Spec.sanitizeSegment rn n i item]> items).
Proof.
  intros Hi. simpl. rewrite Hi.
  unfold Spec.sanitizeSegment, Spec.firstMatch, Spec.heuristics. simpl.
  destruct (String.eqb item "") eqn:E0; [by rewrite list_insert_id|].
  destruct (sanitizeHashes rn && _) eqn:E1; [done|].
  destruct (sanitizeNumbers rn && _) eqn:E2; [done|].
  destruct (sanitizeUids rn && _) eqn:E3; [done|].
  destruct (sanitizeIps rn && _) eqn:E4; [done|].
  destruct (i + 1 =? n)%nat eqn:E5; simpl.
  - destruct (sanitizeImages rn && _) eqn:E6; [done|].
    destruct (sanitizeFonts rn && _) eqn:E7; [done|].
    by rewrite list_insert_id.
  - by rewrite list_insert_id.
Qed.

(** The second loop is the map of [sanitizeSegment] over the indexed segments. *)
Lemma sanitizeLoop_imap_from rn n post pre :
  sanitizeLoop rn n (length post) (length pre) (pre ++ post)
  = pre ++ imap (fun j => Spec.sanitizeSegment rn n (length pre + j)) post.
Proof.
  revert pre. induction post as [|x post IH]; intros pre; [done|].
  cbn [length]. rewrite (sanitizeLoop_step _ _ _ _ _ x); [|by apply list_lookup_middle].
  rewrite insert_app_r_alt by done. rewrite Nat.sub_diag. cbn [insert list_insert].
  rewrite (cons_middle _ pre post), app_assoc.
  replace (S (length pre)) with (length (pre ++ [Spec.sanitizeSegment rn n (length pre) x]))
    by (rewrite length_app; simpl; lia).
  rewrite IH, <- app_assoc. simpl. rewrite Nat.add_0_r. do 2 f_equal.
  apply imap_ext. intros j y _. simpl. f_equal. rewrite length_app. simpl. lia.
Qed.

Lemma sanitizeLoop_imap rn items :
  sanitizeLoop rn (length items) (length items) 0 items
  = imap (Spec.sanitizeSegment rn (length items)) items.
Proof. apply (sanitizeLoop_imap_from rn (length items) items []). Qed.

End SanitizerFacts.

(** ** Sanitized segments *)

Section SegmentFacts.

Context `{Library}.

Import Strings Path Govalidator Extensions StringFacts PathFacts.

Lemma sanitizeSegment_empty rn n i : Spec.sanitizeSegment rn n i "" = "".
Proof. done. Qed.

(** A segment is kept or replaced by the placeholder of an enabled heuristic. *)
Lemma sanitizeSegment_cases rn n i s :
  Spec.sanitizeSegment rn n i s = s
  \/ (Spec.sanitizeSegment rn n i s = hashPlaceholder /\ sanitizeHashes rn = true)
  \/ (Spec.sanitizeSegment rn n i s = numberPlaceholder /\ sanitizeNumbers rn = true)
  \/ (Spec.sanitizeSegment rn n i s = uuidPlaceholder /\ sanitizeUids rn = true)
  \/ (Spec.sanitizeSegment rn n i s = ipPlaceholder /\ sanitizeIps rn = true)
  \/ (Spec.sanitizeSegment rn n i s = imagePlaceholder
      /\ sanitizeImages rn = true /\ (i + 1 =? n)%nat = true)
  \/ (Spec.sanitizeSegment rn n i s = fontPlaceholder
      /\ sanitizeFonts rn = true /\ (i + 1 =? n)%nat = true).
Proof.
  unfold Spec.sanitizeSegment, Spec.firstMatch, Spec.heuristics. simpl.
  destruct (String.eqb s ""); [by left|].
  destruct (sanitizeHashes rn); simpl;
    [destruct (_ || _); [by right; left|]|].
  all: destruct (sanitizeNumbers rn); simpl;
    [destruct (_ || _); [by right; right; left|]|].
  all: destruct (sanitizeUids rn); simpl;
    [destruct (_ || _); [by right; right; right; left|]|].
  all: destruct (sanitizeIps rn); simpl;
    [destruct (IsIP s); [by right; right; right; right; left|]|].
  all: destruct (i + 1 =? n)%nat; simpl; [|by left].
  all: destruct (sanitizeImages rn); simpl;
    [destruct (imageExtensionRegex s); [by do 5 right; left|]|].
  all: destruct (sanitizeFonts rn); simpl;
    [destruct (fontExtensionRegex s); [by do 6 right|]|].
  all: by left.
Qed.

Ltac toggles rn :=
  destruct rn as [? ? [] [] [] [] [] []].

(** What the sanitizer does to a placeholder. *)
Lemma sanitizeSegment_placeholder rn n i p :
  (sanitizeIps rn = true -> IsIP p = false) ->
  p ∈ [hashPlaceholder; uuidPlaceholder; imagePlaceholder; fontPlaceholder] ->
  Spec.sanitizeSegment rn n i p = p.
Proof.
  intros Hip Hp.
  unfold Spec.sanitizeSegment, Spec.firstMatch, Spec.heuristics.
  destruct (sanitizeIps rn) eqn:Eip.
  - specialize (Hip eq_refl).
    repeat (apply elem_of_cons in Hp as [->|Hp]); [..|by apply elem_of_nil in Hp].
    all: toggles rn; simpl in Eip; try discriminate.
    all: destruct (i + 1 =? n)%nat; cbn; rewrite ?Hip; reflexivity.
  - clear Hip.
    repeat (apply elem_of_cons in Hp as [->|Hp]); [..|by apply elem_of_nil in Hp].
    all: toggles rn; simpl in Eip; try discriminate.
    all: destruct (i + 1 =? n)%nat; reflexivity.
Qed.

Lemma sanitizeSegment_number rn n i :
  sanitizeNumbers rn = true -> Spec.sanitizeSegment rn n i numberPlaceholder = numberPlaceholder.
Proof.
  intros Hn. unfold Spec.sanitizeSegment, Spec.firstMatch, Spec.heuristics.
  toggles rn; simpl in Hn; try discriminate; reflexivity.
Qed.

Lemma sanitizeSegment_ip rn n i :
  Spec.sanitizeSegment rn n i ipPlaceholder = ipPlaceholder.
Proof.
  unfold Spec.sanitizeSegment, Spec.firstMatch, Spec.heuristics.
  toggles rn; destruct (i + 1 =? n)%nat; cbn;
    try destruct (IsIP ipPlaceholder); reflexivity.
Qed.

(** Sanitizing a sanitized segment again, at the same place, changes nothing. *)
Lemma sanitizeSegment_idempotent rn n i s :
  (sanitizeIps rn = true -> placeholdersAreNotIPs) ->
  Spec.sanitizeSegment rn n i (Spec.sanitizeSegment rn n i s)
  = Spec.sanitizeSegment rn n i s.
Proof.
  intros Hip.
  assert (forall p, p ∈ [hashPlaceholder; uuidPlaceholder; imagePlaceholder; fontPlaceholder] ->
                    sanitizeIps rn = true -> IsIP p = false) as Hp.
  { intros p Hin Hon. specialize (Hip Hon). unfold placeholdersAreNotIPs in Hip.
    rewrite Forall_forall in Hip. by apply Hip. }
  destruct (sanitizeSegment_cases rn n i s)
    as [E|[[E _]|[[E Hn]|[[E _]|[[E _]|[[E _]|[E _]]]]]]]; rewrite E.
  - done.
  - apply sanitizeSegment_placeholder; [apply Hp|]; set_solver.
  - by apply sanitizeSegment_number.
  - apply sanitizeSegment_placeholder; [apply Hp|]; set_solver.
  - apply sanitizeSegment_ip.
  - apply sanitizeSegment_placeholder; [apply Hp|]; set_solver.
  - apply sanitizeSegment_placeholder; [apply Hp|]; set_solver.
Qed.

Lemma sanitizeSegment_name rn n i s :
  isName s -> isName (Spec.sanitizeSegment rn n i s).
Proof.
  intros Hs.
  destruct (sanitizeSegment_cases rn n i s)
    as [E|[[E _]|[[E _]|[[E _]|[[E _]|[[E _]|[E _]]]]]]]; rewrite E; [done|..].
  all: by repeat split.
Qed.

(** [..] is kept or replaced whatever its place. *)
Lemma sanitizeSegment_dotdot rn n i :
  Spec.sanitizeSegment rn n i ".."
  = if sanitizeIps rn && IsIP ".." then ipPlaceholder else "..".
Proof.
  unfold Spec.sanitizeSegment, Spec.firstMatch, Spec.heuristics.
  toggles rn; destruct (i + 1 =? n)%nat; cbn; try destruct (IsIP ".."); reflexivity.
Qed.

Lemma sanitizeSegment_dot rn n i :
  Spec.sanitizeSegment rn n i "."
  = if sanitizeIps rn && IsIP "." then ipPlaceholder else ".".
Proof.
  unfold Spec.sanitizeSegment, Spec.firstMatch, Spec.heuristics.
  toggles rn; destruct (i + 1 =? n)%nat; cbn; try destruct (IsIP "."); reflexivity.
Qed.

Lemma Forall_imap_name (f : nat -> string -> string) names :
  (forall j x, isName x -> isName (f j x)) ->
  Forall isName names -> Forall isName (imap f names).
Proof.
  intros Hf Hall. revert f Hf.
  induction Hall as [|x names Hx _ IH]; intros f Hf; simpl; constructor.
  - by apply Hf.
  - apply IH. intros j y. apply Hf.
Qed.

Lemma imap_replicate_const {A B} (f : nat -> A -> B) k x y :
  (forall j, f j x = y) -> imap f (replicate k x) = replicate k y.
Proof.
  revert f. induction k as [|k IH]; intros f Hf; simpl; [done|].
  rewrite Hf. f_equal. apply IH. intros j. apply Hf.
Qed.

(** Sanitizing the fields of a cleaned path gives the fields of a cleaned path. *)
Lemma cleanItems_sanitized rn n items :
  cleanItems items -> cleanItems (imap (Spec.sanitizeSegment rn n) items).
Proof.
  destruct 1 as [|names Hne Hn| |k names Hne Hn].
  - apply clean_root.
  - simpl. apply clean_rooted.
    + destruct names; [done|]. done.
    + apply Forall_imap_name; [|done]. intros j x. apply sanitizeSegment_name.
  - simpl. rewrite sanitizeSegment_dot.
    destruct (_ && _); [|apply clean_dot].
    apply (clean_relative 0 [ipPlaceholder]); [done|]. by repeat constructor.
  - rewrite imap_app.
    assert (Forall isName (imap (λ n0 : nat, Spec.sanitizeSegment rn n (length (replicate k "..") + n0)) names)) as Hn'.
    { apply Forall_imap_name; [|done]. intros j x. apply sanitizeSegment_name. }
    rewrite (imap_replicate_const _ k ".." _ (fun j => sanitizeSegment_dotdot rn n j)).
    assert (forall (a b : list string), length a + length b <> 0 -> a ++ b <> []) as Hlen.
    { intros [|] [|]; simpl; try done. }
    assert (k + length names <> 0) as Hk.
    { intros E. apply Hne. destruct k; [|lia]. destruct names; [done|simpl in E; lia]. }
    destruct (_ && _).
    + apply (clean_relative 0 (replicate k ipPlaceholder ++ _)).
      * simpl. apply Hlen. rewrite length_replicate, length_imap. lia.
      * apply Forall_app. split; [|done]. apply Forall_replicate. by repeat split.
    + apply clean_relative; [|done].
      apply Hlen. rewrite length_replicate, length_imap. lia.
Qed.

Lemma imap_sanitize_idempotent rn n items :
  (sanitizeIps rn = true -> placeholdersAreNotIPs) ->
  imap (Spec.sanitizeSegment rn n) (imap (Spec.sanitizeSegment rn n) items)
  = imap (Spec.sanitizeSegment rn n) items.
Proof.
  intros Hip. apply list_eq. intros i.
  rewrite !list_lookup_imap. destruct (items !! i) as [x|]; simpl; [|done].
  f_equal. by apply sanitizeSegment_idempotent.
Qed.

End SegmentFacts.

(** ** Assets and hashes *)

Section AssetFacts.

Context `{Library}.

Import Strings Path Govalidator Extensions StringFacts PathFacts ExtensionFacts.

Lemma extension_nonempty exts s : extensionRegex exts s = true -> s <> "".
Proof.
  intros Hm ->. unfold extensionRegex in Hm. simpl in Hm.
  rewrite orb_false_r in Hm. apply existsb_exists in Hm as (ext & _ & Hm). done.
Qed.

(** A segment with an extension goes past the four heuristics on
    identifiers, unless it is taken for an IP literal. *)
Lemma extension_not_identifier rn exts s :
  Forall (fun ext => noSep "." ext = true) exts ->
  extensionRegex exts s = true ->
  (sanitizeIps rn = true -> IsIP s = false) ->
  Spec.firstMatch [Spec.hashes rn; Spec.numbers rn; Spec.uuids rn; Spec.ips rn] s = None.
Proof.
  intros Hexts Hm Hip.
  destruct (dot_not_identifier s (extensionRegex_dot _ _ Hexts Hm)) as (H1 & H2 & H3).
  specialize (H2 (extension_nonempty _ _ Hm)).
  unfold Spec.firstMatch. simpl. rewrite H1, H2, H3, !andb_false_r.
  destruct (sanitizeIps rn); [by rewrite Hip|done].
Qed.

Lemma firstMatch_app hs1 hs2 s :
  Spec.firstMatch hs1 s = None ->
  Spec.firstMatch (hs1 ++ hs2) s = Spec.firstMatch hs2 s.
Proof.
  unfold Spec.firstMatch. induction hs1 as [|h hs1 IH]; simpl; [done|].
  destruct (Spec.enabled h && Spec.matches h s); [done|]. apply IH.
Qed.

Lemma sanitizeSegment_not_last rn n i s exts :
  Forall (fun ext => noSep "." ext = true) exts ->
  extensionRegex exts s = true ->
  (sanitizeIps rn = true -> IsIP s = false) ->
  i + 1 <> n ->
  Spec.sanitizeSegment rn n i s = s.
Proof.
  intros Hexts Hm Hip Hi. unfold Spec.sanitizeSegment, Spec.heuristics.
  apply Nat.eqb_neq in Hi. rewrite Hi, app_nil_r.
  rewrite (extension_not_identifier _ _ _ Hexts Hm Hip).
  by destruct (String.eqb s "").
Qed.

Lemma sanitizeSegment_image rn n i s :
  sanitizeImages rn = true -> imageExtensionRegex s = true ->
  (sanitizeIps rn = true -> IsIP s = false) ->
  i + 1 = n ->
  Spec.sanitizeSegment rn n i s = imagePlaceholder.
Proof.
  intros Hon Hm Hip Hi. unfold Spec.sanitizeSegment, Spec.heuristics.
  apply Nat.eqb_eq in Hi. rewrite Hi.
  rewrite firstMatch_app
    by (by apply (extension_not_identifier _ imageExtensions); [apply imageExtensions_noDot|..]).
  pose proof (extension_nonempty _ _ Hm) as Hne. apply String.eqb_neq in Hne.
  rewrite Hne. unfold Spec.firstMatch. simpl. by rewrite Hon, Hm.
Qed.

Lemma sanitizeSegment_font rn n i s :
  sanitizeFonts rn = true -> fontExtensionRegex s = true ->
  (sanitizeIps rn = true -> IsIP s = false) ->
  i + 1 = n ->
  Spec.sanitizeSegment rn n i s = fontPlaceholder.
Proof.
  intros Hon Hm Hip Hi. unfold Spec.sanitizeSegment, Spec.heuristics.
  apply Nat.eqb_eq in Hi. rewrite Hi.
  rewrite firstMatch_app
    by (by apply (extension_not_identifier _ fontExtensions); [apply fontExtensions_noDot|..]).
  pose proof (extension_nonempty _ _ Hm) as Hne. apply String.eqb_neq in Hne.
  rewrite Hne. unfold Spec.firstMatch. simpl. rewrite Hon, Hm.
  destruct (imageExtensionRegex s) eqn:Hi'.
  - by rewrite (image_font_disjoint _ Hi') in Hm.
  - by rewrite andb_false_r.
Qed.

Lemma sanitizeSegment_md5 rn n i s :
  sanitizeHashes rn = true -> IsMD5 s = true ->
  Spec.sanitizeSegment rn n i s = hashPlaceholder.
Proof.
  intros Hon Hm. unfold Spec.sanitizeSegment, Spec.firstMatch, Spec.heuristics.
  simpl. rewrite Hon, Hm. simpl.
  destruct (String.eqb_spec s ""); [by subst|done].
Qed.

(** An MD5 digest is hexadecimal as well: only the order of the tests
    keeps it from the number placeholder. *)
Lemma IsMD5_IsHexadecimal s : IsMD5 s = true -> IsHexadecimal s = true.
Proof.
  intros Hm. unfold IsHexadecimal.
  assert (s <> "") as Hne by (by intros ->).
  apply String.eqb_neq in Hne. rewrite Hne. simpl.
  eapply ExtensionFacts.all_impl; [|exact (matchRuns_all _ _ Hm)].
  intros c. simpl. rewrite orb_false_r. unfold Bytes.isLowerHex, Bytes.isHex.
  destruct (Bytes.isLowerHexLetter c), (Bytes.isDigit c); done.
Qed.

End AssetFacts.

(** ** Rules and construction *)

Section RuleFacts.

Context `{Library}.

Import Strings Path Govalidator Extensions StringFacts PathFacts.

Lemma process_ruleRegexp n path compiled :
  ruleRegexp n = Some compiled ->
  process n path
  = Returns (setRegexpCompiled n compiled, Spec.apply compiled (Replacement n) path).
Proof.
  unfold ruleRegexp, process, Spec.apply, MustCompile.
  destruct n as [[c|] re rep]; simpl.
  - intros [= ->]. by destruct (MatchString compiled path).
  - intros ->. simpl. by destruct (MatchString compiled path).
Qed.

Lemma process_precompiled n path compiled :
  regexpCompiled n = Some compiled ->
  process n path = Returns (n, Spec.apply compiled (Replacement n) path).
Proof.
  intros Hc. rewrite (process_ruleRegexp _ _ compiled).
  - destruct n; simpl in *. by subst.
  - unfold ruleRegexp. by rewrite Hc.
Qed.

Lemma process_panics n path : ruleRegexp n = None -> process n path = Panics.
Proof.
  unfold ruleRegexp, process, MustCompile.
  destruct n as [[c|] re rep]; simpl; [done|]. by intros ->.
Qed.

Lemma rewriteLoop_returns rules rawPath :
  Forall (fun r => is_Some (ruleRegexp r)) rules ->
  rewriteLoop rules rawPath = Returns (applyRules rules rawPath).
Proof.
  intros Hall. revert rawPath.
  induction Hall as [|r rules [c Hc] _ IH]; intros rawPath; [done|].
  simpl. rewrite (process_ruleRegexp _ _ _ Hc). simpl.
  rewrite IH. unfold applyRules at 2. simpl. unfold applyRule at 2. by rewrite Hc.
Qed.

Lemma rewriteLoop_panics rules rawPath :
  Exists (fun r => ruleRegexp r = None) rules ->
  rewriteLoop rules rawPath = Panics.
Proof.
  intros Hex. revert rawPath.
  induction rules as [|r rules IH]; intros rawPath; [by inversion Hex|].
  simpl. destruct (ruleRegexp r) as [c|] eqn:Hc.
  - rewrite (process_ruleRegexp _ _ _ Hc). simpl. apply IH.
    inversion Hex; subst; [congruence|done].
  - by rewrite process_panics.
Qed.

Lemma precompiled_ruleRegexp rules :
  precompiled rules -> Forall (fun r => is_Some (ruleRegexp r)) rules.
Proof.
  intros Hp. eapply Forall_impl; [exact Hp|].
  intros r (c & Hc & _). exists c. unfold ruleRegexp. by rewrite Hc.
Qed.

(** The loop of [precompileRegexps] when every pattern compiles. *)
Lemma precompileLoop_ok range pre :
  Forall (fun r => is_Some (regexpCompile (Regexp r))) range ->
  exists range',
    precompileLoop (length pre) range (pre ++ range) = (pre ++ range', None)
    /\ Forall2 (fun r r' => exists compiled,
                    regexpCompile (Regexp r) = Some compiled
                    /\ r' = setRegexpCompiled r compiled) range range'.
Proof.
  intros Hall. revert pre.
  induction Hall as [|r range [c Hc] _ IH]; intros pre.
  - exists []. split; [done|constructor].
  - simpl. rewrite Hc.
    rewrite alter_app_r_alt by done. rewrite Nat.sub_diag. simpl.
    rewrite (cons_middle _ pre range), app_assoc.
    replace (S (length pre)) with (length (pre ++ [setRegexpCompiled r c]))
      by (rewrite length_app; simpl; lia).
    destruct (IH (pre ++ [setRegexpCompiled r c])) as (range' & -> & Hr).
    exists (setRegexpCompiled r c :: range'). split.
    + by rewrite <- app_assoc.
    + constructor; [by exists c|done].
Qed.

(** The loop of [precompileRegexps] when some pattern does not compile. *)
Lemma precompileLoop_error range i rules :
  Exists (fun r => regexpCompile (Regexp r) = None) range ->
  exists rules' r,
    precompileLoop i range rules = (rules', Some (failedToCompileRegexp (Regexp r)))
    /\ r ∈ range /\ regexpCompile (Regexp r) = None.
Proof.
  intros Hex. revert i rules.
  induction range as [|r range IH]; intros i rules; [by inversion Hex|].
  simpl. destruct (regexpCompile (Regexp r)) as [c|] eqn:Hc.
  - destruct (IH ltac:(inversion Hex; subst; [congruence|done]) (S i)
               (alter (fun r0 => setRegexpCompiled r0 c) i rules))
      as (rules' & r' & -> & Hin & Hr').
    exists rules', r'. split; [done|]. split; [by right|done].
  - exists rules, r. split; [done|]. split; [by left|done].
Qed.

Lemma Forall2_setRegexpCompiled_precompiled range range' :
  Forall2 (fun r r' => exists compiled,
               regexpCompile (Regexp r) = Some compiled
               /\ r' = setRegexpCompiled r compiled) range range' ->
  precompiled range'.
Proof.
  induction 1 as [|r r' range range' (c & Hc & ->) _ IH]; constructor; [|done].
  by exists c.
Qed.

(** A normalizer that [NewFromConfig] returns has the configuration's
    fields, and rules that are precompiled. *)
Lemma NewFromConfig_Some config rn err :
  NewFromConfig config = (Some rn, err) ->
  err = None
  /\ precompiled (replaceRules rn)
  /\ Forall2 (fun r r' => exists compiled,
                  regexpCompile (Regexp r) = Some compiled
                  /\ r' = setRegexpCompiled r compiled)
       (ReplaceRules config) (replaceRules rn)
  /\ getParamWithEventIdentifier rn = GetParamWithEventIdentifier config
  /\ sanitizeHashes rn = SanitizeHashes config
  /\ sanitizeNumbers rn = SanitizeNumbers config
  /\ sanitizeUids rn = SanitizeUids config
  /\ sanitizeIps rn = SanitizeIps config
  /\ sanitizeImages rn = SanitizeImages config
  /\ sanitizeFonts rn = SanitizeFonts config.
Proof.
  unfold NewFromConfig, precompileRegexps. simpl.
  destruct (Forall_Exists_dec (fun r => is_Some (regexpCompile (Regexp r)))
              (fun r => regexpCompile (Regexp r) = None)
              (fun r => match regexpCompile (Regexp r) as o
                          return {is_Some o} + {o = None} with
                        | Some c => left (ex_intro _ c eq_refl)
                        | None => right eq_refl
                        end) (ReplaceRules config)) as [Hall|Hex].
  - destruct (precompileLoop_ok _ [] Hall) as (range' & Hloop & Hr).
    simpl in Hloop. rewrite Hloop. intros [= <- <-]. simpl.
    split; [done|]. split; [by eapply Forall2_setRegexpCompiled_precompiled|].
    by repeat split.
  - destruct (precompileLoop_error _ 0 (ReplaceRules config) Hex)
      as (rules' & r & -> & _). done.
Qed.

End RuleFacts.

(** ** [normalizePath] *)

Section NormalizePathFacts.

Context `{Library}.

Import Strings Path Govalidator Extensions StringFacts PathFacts.

Lemma normalizePath_empty rn : normalizePath rn "" = Returns "/".
Proof. done. Qed.

(** [normalizePath] with precompiled rules: the rules, then the sanitizer. *)
Lemma normalizePath_precompiled rn rawPath :
  precompiled (replaceRules rn) -> rawPath <> "" ->
  normalizePath rn rawPath
  = Returns (sanitizeRewritten rn (applyRules (replaceRules rn) rawPath)).
Proof.
  intros Hp Hne. unfold normalizePath.
  apply String.eqb_neq in Hne. rewrite Hne.
  rewrite rewriteLoop_returns by by apply precompiled_ruleRegexp.
  simpl. unfold sanitizeRewritten. by rewrite sanitizeLoop_imap.
Qed.

Lemma sanitizeRewritten_cleanItems rn rawPath :
  cleanItems (imap (Spec.sanitizeSegment rn (length (Split (Clean rawPath) "/")))
                (Split (Clean rawPath) "/")).
Proof. apply cleanItems_sanitized, Split_Clean. Qed.

Lemma cleanItems_not_nil items : cleanItems items -> items <> [].
Proof. by destruct 1. Qed.

(** The segments of the sanitized path are the sanitized segments. *)
Lemma Split_sanitizeRewritten rn rawPath :
  Split (sanitizeRewritten rn rawPath) "/"
  = imap (Spec.sanitizeSegment rn (length (Split (Clean rawPath) "/")))
      (Split (Clean rawPath) "/").
Proof.
  unfold sanitizeRewritten. pose proof (sanitizeRewritten_cleanItems rn rawPath) as Hc.
  apply Split_Join; [by apply cleanItems_not_nil|by apply cleanItems_noSep].
Qed.

Lemma Clean_sanitizeRewritten rn rawPath :
  Clean (sanitizeRewritten rn rawPath) = sanitizeRewritten rn rawPath.
Proof. apply Clean_Join, sanitizeRewritten_cleanItems. Qed.

Lemma sanitizeRewritten_nonempty rn rawPath : sanitizeRewritten rn rawPath <> "".
Proof. rewrite <- Clean_sanitizeRewritten. apply Clean_nonempty. Qed.

(** The sanitizer alone is idempotent. *)
Lemma sanitizeRewritten_idempotent rn rawPath :
  (sanitizeIps rn = true -> placeholdersAreNotIPs) ->
  sanitizeRewritten rn (sanitizeRewritten rn rawPath) = sanitizeRewritten rn rawPath.
Proof.
  intros Hip. unfold sanitizeRewritten at 1.
  rewrite Clean_sanitizeRewritten, Split_sanitizeRewritten, length_imap.
  by rewrite imap_sanitize_idempotent.
Qed.

Lemma applyRules_silent rules path :
  (forall r compiled, r ∈ rules -> regexpCompiled r = Some compiled ->
                      MatchString compiled path = false) ->
  precompiled rules ->
  applyRules rules path = path.
Proof.
  intros Hsilent Hp. unfold applyRules.
  induction Hp as [|r rules (c & Hc & _) _ IH]; [done|].
  simpl. unfold applyRule at 2, ruleRegexp, Spec.apply. rewrite Hc.
  rewrite (Hsilent r c) by (by left || done).
  apply IH. intros r' c' Hin. apply Hsilent. by right.
Qed.

Lemma normalizePath_returns rn rawPath :
  precompiled (replaceRules rn) ->
  exists normalized, normalizePath rn rawPath = Returns normalized /\ normalized <> "".
Proof.
  intros Hp. destruct (decide (rawPath = "")) as [->|Hne].
  - by exists "/".
  - rewrite normalizePath_precompiled by done.
    eexists. split; [done|]. apply sanitizeRewritten_nonempty.
Qed.

Lemma root_sanitized rn : sanitizeRewritten rn "/" = "/".
Proof. done. Qed.

Lemma normalizePath_fixed rn rawPath normalized :
  precompiled (replaceRules rn) ->
  (sanitizeIps rn = true -> placeholdersAreNotIPs) ->
  normalizePath rn rawPath = Returns normalized ->
  (forall r compiled, r ∈ replaceRules rn -> regexpCompiled r = Some compiled ->
                      MatchString compiled normalized = false) ->
  normalizePath rn normalized = Returns normalized.
Proof.
  intros Hp Hip Hn Hsilent.
  destruct (decide (rawPath = "")) as [->|Hne].
  - injection Hn as <-. rewrite normalizePath_precompiled by done.
    by rewrite applyRules_silent.
  - rewrite normalizePath_precompiled in Hn by done. injection Hn as <-.
    rewrite normalizePath_precompiled; [|done|apply sanitizeRewritten_nonempty].
    rewrite applyRules_silent by done.
    by rewrite sanitizeRewritten_idempotent.
Qed.

End NormalizePathFacts.

(** ** The event key *)

Section KeyFacts.

Context `{Library} {Other : Type}.

Lemma Query_foldl (pairs : list (string * string)) (m : gmap string (list string)) name :
  foldl (fun (m : gmap string (list string)) (kv : string * string) =>
           <[kv.1 := default [] (m !! kv.1) ++ [kv.2]]> m) m pairs !! name
  = match valuesOf name pairs with
    | [] => m !! name
    | values => Some (default [] (m !! name) ++ values)
    end.
Proof.
  revert m. induction pairs as [|[k v] pairs IH]; intros m; [done|].
  cbn [foldl]. rewrite IH. unfold valuesOf. rewrite filter_cons. cbn [fst snd].
  destruct (decide (k = name)) as [->|Hne].
  - rewrite lookup_insert_eq, fmap_cons. cbn [snd].
    destruct ((filter _ pairs).*2) as [|v' values]; [done|].
    f_equal. change (default [] (Some ?x)) with x. by rewrite <- app_assoc.
  - by rewrite lookup_insert_ne.
Qed.

(** The values [Query] keeps under a name. *)
Lemma Query_lookup (u : URL) name :
  Query u !! name
  = match valuesOf name (ParseQuery (RawQuery u)) with
    | [] => None
    | values => Some values
    end.
Proof. unfold Query. rewrite Query_foldl. by rewrite lookup_empty. Qed.

Lemma getNormalizedEventKey_returns rn (event : HttpRequest Other) normalized :
  normalizePath rn (Path (EventURL event)) = Returns normalized ->
  getNormalizedEventKey rn event
  = Returns (Strings.Join ([Method event; normalized] ++ operationNames rn (EventURL event))
               eventKeyFieldSeparator).
Proof.
  intros Hn. unfold getNormalizedEventKey, operationNames. rewrite Hn. simpl.
  destruct (String.eqb (getParamWithEventIdentifier rn) ""); simpl; [done|].
  rewrite Query_lookup.
  by destruct (valuesOf _ _).
Qed.

Lemma Run_body_keyed rn (e : HttpRequest Other) :
  EventKey e <> "" -> Run_body rn e = Returns e.
Proof.
  intros Hk%String.eqb_neq. unfold Run_body. by rewrite Hk.
Qed.

Lemma Run_body_returns rn (e : HttpRequest Other) :
  precompiled (replaceRules rn) ->
  exists e', Run_body rn e = Returns e'
             /\ Method e' = Method e /\ EventURL e' = EventURL e
             /\ OtherFields e' = OtherFields e
             /\ (EventKey e <> "" -> EventKey e' = EventKey e)
             /\ (EventKey e = "" -> getNormalizedEventKey rn e = Returns (EventKey e')).
Proof.
  intros Hp. unfold Run_body.
  destruct (String.eqb_spec (EventKey e) "") as [Hk|Hk]; simpl.
  - destruct (normalizePath_returns rn (Path (EventURL e)) Hp) as (q & Hq & _).
    rewrite (getNormalizedEventKey_returns _ _ _ Hq). simpl.
    eexists. split; [done|]. by repeat split.
  - exists e. by repeat split.
Qed.

End KeyFacts.

(** ** The stage *)

Section StageFacts.

Context `{Library} {Other : Type}.

Implicit Types (s : stage (Other := Other)) (e : HttpRequest Other)
  (events : list (HttpRequest Other)).

Lemma forwarded_returns rn e :
  precompiled (replaceRules rn) -> Run_body rn e = Returns (forwarded rn e).
Proof.
  intros Hp. unfold forwarded.
  by destruct (Run_body_returns rn e Hp) as (e' & -> & _).
Qed.

Lemma start_ok rn events : stageOk rn events (start events).
Proof.
  unfold stageOk, start. simpl. repeat split; try done.
Qed.

Lemma step_ok rn events s s' :
  precompiled (replaceRules rn) ->
  stageOk rn events s -> step rn s s' -> stageOk rn events s'.
Proof.
  intros Hp (Hev & Hw & Hoc & Hfin & Hic) Hstep. unfold stageOk.
  destruct Hstep as [e up inp w outp oc|inp w outp oc|e e' up inp ic outp oc Hb
                    |e up inp ic outp oc Hb|e up inp ic outp oc|up outp oc]; simpl in *.
  - split_and!; try tauto; try done.
    + by rewrite <- app_assoc.
    + intros Hf. by destruct (Hfin Hf).
  - split_and!; tauto.
  - rewrite (forwarded_returns _ _ Hp) in Hb. injection Hb as <-.
    split_and!; try done; try tauto.
    all: try (split; [intros E; apply Hoc in E; done|done]).
  - rewrite (forwarded_returns _ _ Hp) in Hb. done.
  - split_and!; try done; try tauto.
    all: try (split; [intros E; apply Hoc in E; done|done]).
    by rewrite <- app_assoc.
  - split_and!; try tauto; done.
Qed.

Lemma steps_ok rn events s :
  precompiled (replaceRules rn) ->
  rtc (step rn) (start events) s -> stageOk rn events s.
Proof.
  intros Hp Hs. eapply (rtc_ind_r (fun s => stageOk rn events s)); [|by eauto using step_ok|exact Hs].
  apply start_ok.
Qed.

(** Every step takes one off what is left, a panic more. *)
Lemma step_stepsLeft rn s s' : step rn s s' -> stepsLeft s' < stepsLeft s.
Proof.
  destruct 1; unfold stepsLeft; simpl; rewrite ?length_app; simpl; lia.
Qed.

Lemma nsteps_stepsLeft rn k s s' :
  nsteps (step rn) k s s' -> k + stepsLeft s' <= stepsLeft s.
Proof.
  induction 1 as [|k s1 s2 s3 Hstep _ IH]; [lia|].
  apply step_stepsLeft in Hstep. lia.
Qed.

(** A stage that has not finished can move. *)
Lemma stage_progress rn events s :
  precompiled (replaceRules rn) ->
  stageOk rn events s -> worker s <> Finished -> exists s', step rn s s'.
Proof.
  intros Hp (_ & Hw & _ & _ & Hic) Hnf.
  destruct s as [up inp ic w outp oc]; simpl in *.
  destruct w as [|e| |]; [|eexists; apply step_send|done|done].
  destruct inp as [|e inp].
  - destruct ic.
    + eexists. apply step_finish.
    + destruct up as [|e up]; eexists; [apply step_close_input|apply step_produce].
  - eexists. apply step_receive, forwarded_returns, Hp.
Qed.

Lemma stage_finishes rn events s :
  precompiled (replaceRules rn) ->
  stageOk rn events s ->
  exists s', rtc (step rn) s s' /\ worker s' = Finished.
Proof.
  intros Hp. remember (stepsLeft s) as n eqn:Hn. revert s Hn.
  induction n as [n IH] using lt_wf_ind. intros s -> Hok.
  assert (worker s = Finished \/ worker s <> Finished) as [Hf|Hnf]
    by (destruct (worker s); (by left) || (by right)).
  - exists s. by split.
  - destruct (stage_progress _ _ _ Hp Hok Hnf) as (s1 & Hstep).
    destruct (IH (stepsLeft s1) (step_stepsLeft _ _ _ Hstep) s1 eq_refl
                (step_ok _ _ _ _ Hp Hok Hstep)) as (s' & Hs' & Hf).
    exists s'. split; [|done]. by eapply rtc_l.
Qed.

Lemma stageOk_finished rn events s :
  stageOk rn events s -> worker s = Finished ->
  outputEventsChan s = forwarded rn <$> events /\ outputClosed s = true.
Proof.
  intros (Hev & _ & Hoc & Hfin & Hic) Hf.
  destruct (Hfin Hf) as [Hinp Hclosed]. rewrite Hev, Hf, Hinp, (Hic Hclosed).
  simpl. rewrite app_nil_r. split; [done|]. by apply Hoc.
Qed.

Lemma stageOk_prefix rn events s :
  stageOk rn events s -> outputEventsChan s `prefix_of` forwarded rn <$> events.
Proof. intros (-> & _). by eexists. Qed.

End StageFacts.

(** ** Digests by their bytes *)

Section DigestFacts.

Context `{Library}.

Import Bytes Govalidator.

(** A pattern of one run is a test of the length and of every byte. *)
Lemma matchRuns_exactly n p s : matchRuns [(n, p)] s = exactly n p s.
Proof.
  unfold exactly. revert s. induction n as [|n IH]; intros s.
  - destruct s; done.
  - destruct s as [|c s]; [done|].
    specialize (IH s). simpl in *. destruct (p c); [exact IH|].
    by rewrite andb_false_r.
Qed.

(** Thirty-two hexadecimal digits that are not all lower-case are no
    digest for [govalidator], and a hexadecimal number. *)
Lemma mixed_case_digest s :
  exactly 32 isHex s = true -> all isLowerHex s = false ->
  IsMD5 s || IsSHA1 s || IsSHA256 s = false /\ IsHexadecimal s = true.
Proof.
  intros [Hlen Hhex]%andb_true_iff Hlower.
  unfold IsMD5, IsSHA1, IsSHA256. rewrite !matchRuns_exactly. unfold exactly.
  rewrite Hlower, andb_false_r. apply Nat.eqb_eq in Hlen. rewrite Hlen. simpl.
  split; [done|]. unfold IsHexadecimal. rewrite Hhex, andb_true_r.
  destruct s; [done|done].
Qed.

Lemma sanitizeSegment_mixed_case_digest rn n i s :
  sanitizeNumbers rn = true ->
  exactly 32 isHex s = true -> all isLowerHex s = false ->
  Spec.sanitizeSegment rn n i s = numberPlaceholder.
Proof.
  intros Hon Hhex Hlower.
  destruct (mixed_case_digest s Hhex Hlower) as [Hhash Hnumber].
  unfold Spec.sanitizeSegment, Spec.firstMatch, Spec.heuristics. simpl.
  rewrite Hhash, Hon, Hnumber, andb_false_r, orb_true_r. simpl.
  destruct (String.eqb_spec s "") as [->|_]; done.
Qed.

End DigestFacts.

(** * The definitions on concrete inputs *)

Module Evaluations.

Import Strings Path Govalidator Extensions Examples.

Example Clean_dots : Clean "/a/./b/../../c//" = "/c".
Proof. reflexivity. Qed.

Example Clean_relative : Clean "../a/../../b" = "../../b".
Proof. reflexivity. Qed.

Example Clean_above_root : Clean "/.." = "/".
Proof. reflexivity. Qed.

Example Clean_to_dot : Clean "a/.." = ".".
Proof. reflexivity. Qed.

Example Split_keeps_empty_fields : Split "/a//b/" "/" = [""; "a"; ""; "b"; ""].
Proof. reflexivity. Qed.

Example IsMD5_lower_case_only :
  IsMD5 "d41d8cd98f00b204e9800998ecf8427e" = true
  /\ IsMD5 "D41D8CD98F00B204E9800998ECF8427E" = false
  /\ IsHexadecimal "D41D8CD98F00B204E9800998ECF8427E" = true.
Proof. by repeat split. Qed.

Example IsUUID_any_version :
  IsUUID "123e4567-e89b-12d3-a456-426614174000" = true
  /\ IsUUIDv4 "123e4567-e89b-12d3-a456-426614174000" = false
  /\ IsUUIDv4 "123e4567-e89b-42d3-a456-426614174000" = true.
Proof. by repeat split. Qed.

Example extension_needs_its_dot :
  imageExtensionRegex "a.PnG" = true
  /\ imageExtensionRegex "a.png.x" = false
  /\ imageExtensionRegex "png" = false
  /\ fontExtensionRegex "x.WOFF" = true.
Proof. by repeat split. Qed.

(** Every sanitizer at once: the extension in the middle stays. *)
Example normalizePath_all_sanitizers :
  normalizePath fullNormalizer
    "/users/42/d41d8cd98f00b204e9800998ecf8427e/10.0.0.1/123e4567-e89b-12d3-a456-426614174000/x.png/y.ttf"
  = Returns "/users/0/:hash/:ip/:uuid/x.png/:font".
Proof. reflexivity. Qed.

Example normalizePath_image_in_the_middle :
  normalizePath fullNormalizer "/images.png/detail" = Returns "/images.png/detail".
Proof. reflexivity. Qed.

Example normalizePath_image_at_the_end :
  normalizePath fullNormalizer "/detail/images.png" = Returns "/detail/:image".
Proof. reflexivity. Qed.

(** A replacement may be empty: [Clean] then gives the dot. *)
Example normalizePath_empty_replacement :
  normalizePath (normalizer [compiledRule "a" ""] true "") "/a" = Returns ".".
Proof. reflexivity. Qed.

(** A rule that was never compiled and cannot be: [process] panics. *)
Example normalizePath_uncompiled_rule :
  normalizePath (normalizer [rule "(" "/never"] true "") "/a" = Panics
  /\ normalizePath (normalizer [rule "(" "/never"] true "") "" = Returns "/".
Proof. by split. Qed.

Example key_without_parameter :
  getNormalizedEventKey (normalizer [] true "") listUsers = Returns "GET:/users/0".
Proof. reflexivity. Qed.

Example key_with_escaped_values :
  getNormalizedEventKey numbersNormalizer
    (request "GET" "/users/42" "x=1&op=a%20b+c&&op&y;op=3&op=%zz" "")
  = Returns "GET:/users/0:a b c:".
Proof. reflexivity. Qed.

End Evaluations.

(** * The claims of the specification *)

Section Claims.

Context `{Library}.

Import Strings Path Govalidator Extensions StringFacts PathFacts ExtensionFacts.

(** What [normalizePath] returns for a constructed normalizer: the
    segments of the result are the sanitized segments of the rewritten,
    cleaned path. *)
Lemma normalizePath_segments config rn rawPath :
  NewFromConfig config = (Some rn, None) -> rawPath <> "" ->
  exists normalized,
    normalizePath rn rawPath = Returns normalized
    /\ normalized = sanitizeRewritten rn (applyRules (replaceRules rn) rawPath)
    /\ Split normalized "/"
       = imap (Spec.sanitizeSegment rn
                 (length (Split (Clean (applyRules (replaceRules rn) rawPath)) "/")))
           (Split (Clean (applyRules (replaceRules rn) rawPath)) "/").
Proof.
  intros (_ & Hp & _)%NewFromConfig_Some Hne.
  eexists. split; [by apply normalizePath_precompiled|]. split; [done|].
  apply Split_sanitizeRewritten.
Qed.

End Claims.

(** C1, as amended: for every path [p] and every constructed normalizer,
    whatever its six toggles, if no rewrite rule's pattern matches the
    sanitized path [normalizePath p] (and [IsIP] refuses the placeholders
    it is asked about), then sanitizing that path again gives it back:
    [normalizePath (normalizePath p) = normalizePath p]. *)
Theorem normalizePath_idempotent `{Library} config rn rawPath normalized :
  NewFromConfig config = (Some rn, None) ->
  (sanitizeIps rn = true -> placeholdersAreNotIPs) ->
  normalizePath rn rawPath = Returns normalized ->
  rulesSilentOn rn normalized ->
  normalizePath rn normalized = Returns normalized.
Proof.
  intros (_ & Hp & _)%NewFromConfig_Some Hip Hn Hsilent.
  by eapply normalizePath_fixed.
Qed.

Lemma normalizePath_idempotent_witness :
  NewFromConfig Examples.fullConfig = (Some Examples.fullNormalizer, None)
  /\ normalizePath Examples.fullNormalizer "/users/42//10.0.0.1/logo.PNG"
     = Returns "/users/0/:ip/:image"
  /\ normalizePath Examples.fullNormalizer "/users/0/:ip/:image"
     = Returns "/users/0/:ip/:image".
Proof.
  split; [reflexivity|]. split; [reflexivity|].
  apply (normalizePath_idempotent (H := Plain.library) Examples.fullConfig
           Examples.fullNormalizer "/users/42//10.0.0.1/logo.PNG").
  - reflexivity.
  - intros _. repeat constructor.
  - reflexivity.
  - intros r compiled Hr Hc. apply list_elem_of_singleton in Hr. subst r.
    injection Hc as <-. reflexivity.
Defined.

(** C1, as stated, fails: the rule [/a/b -> /x] has a replacement its
    own pattern does not match, it does not match [/a//b] either, but it
    matches the cleaned path [/a/b]; the second pass rewrites what the
    first returned. *)
Lemma normalizePath_not_idempotent :
  NewFromConfig Examples.plainConfig = (Some Examples.plainNormalizer, None)
  /\ noReplacementMatched Examples.plainNormalizer
  /\ normalizePath Examples.plainNormalizer "/a//b" = Returns "/a/b"
  /\ normalizePath Examples.plainNormalizer "/a/b" = Returns "/x"
  /\ normalizePath Examples.plainNormalizer "/a/b" <> Returns "/a/b".
Proof.
  split; [reflexivity|]. split; [|split; [reflexivity|split; [reflexivity|discriminate]]].
  intros r1 r2 compiled Hr1 Hr2 Hc.
  apply list_elem_of_singleton in Hr1, Hr2. subst r1 r2.
  injection Hc as <-. reflexivity.
Qed.




(** C3: a rule whose pattern matches the path gives its replacement as
    the whole new path, and the path itself otherwise; [normalizePath]
    folds the rules over the raw path in the order of the list, each on
    the result of the one before, and only then cleans, splits and
    sanitizes. *)
Theorem rules_rewrite_in_order `{Library} :
  (forall n path compiled,
      ruleRegexp n = Some compiled ->
      exists n',
        process n path
        = Returns (n', if MatchString compiled path then Replacement n else path))
  /\ (forall config rn rawPath,
         NewFromConfig config = (Some rn, None) -> rawPath <> "" ->
         normalizePath rn rawPath
         = Returns (sanitizeRewritten rn
                      (foldl (fun path rule => applyRule rule path) rawPath
                         (replaceRules rn)))).
Proof.
  split.
  - intros n path compiled Hc. eexists. by apply process_ruleRegexp.
  - intros config rn rawPath (_ & Hp & _)%NewFromConfig_Some Hne.
    by apply normalizePath_precompiled.
Qed.

Lemma rules_rewrite_in_order_witness :
  (exists n', process (H := Plain.library) (Examples.rule "/v2" "/legacy") "/api/v2/x"
              = Returns (n', "/legacy"))
  /\ normalizePath Examples.fullNormalizer "/v2/orders/123" = Returns "/legacy".
Proof.
  destruct (rules_rewrite_in_order (H := Plain.library)) as [Hprocess Hnormalize].
  split.
  - exact (Hprocess (Examples.rule "/v2" "/legacy") "/api/v2/x" "/v2" eq_refl).
  - exact (Hnormalize Examples.fullConfig Examples.fullNormalizer "/v2/orders/123"
             eq_refl ltac:(discriminate)).
Defined.

(** C4, as amended: the segments of the result are those of the
    rewritten, cleaned path, each non-empty one replaced by the
    placeholder of the first heuristic that is enabled and matches, in
    the order hashes, numbers, uuids, ips, then, for the last segment
    only, images, fonts.  A segment of 32 lower-case hexadecimal digits,
    which is hexadecimal too, becomes [:hash] when the hashes toggle is
    on, whatever the numbers toggle; a segment of 32 hexadecimal digits
    that are not all lower-case is no hash and becomes [0] when the
    numbers toggle is on.  Empty segments stay empty. *)
Theorem heuristics_in_priority_order `{Library} config rn rawPath :
  NewFromConfig config = (Some rn, None) -> rawPath <> "" ->
  let segments :=
    Strings.Split (Path.Clean (applyRules (replaceRules rn) rawPath)) "/" in
  exists normalized,
    normalizePath rn rawPath = Returns normalized
    /\ Strings.Split normalized "/"
       = imap (Spec.sanitizeSegment rn (length segments)) segments
    /\ (forall i item,
           segments !! i = Some item ->
           sanitizeHashes rn = true ->
           Bytes.exactly 32 Bytes.isLowerHex item = true ->
           Govalidator.IsMD5 item = true
           /\ Govalidator.IsHexadecimal item = true
           /\ Strings.Split normalized "/" !! i = Some hashPlaceholder)
    /\ (forall i item,
           segments !! i = Some item ->
           sanitizeNumbers rn = true ->
           Bytes.exactly 32 Bytes.isHex item = true ->
           Bytes.all Bytes.isLowerHex item = false ->
           Govalidator.IsMD5 item = false
           /\ Strings.Split normalized "/" !! i = Some numberPlaceholder)
    /\ (forall i,
           segments !! i = Some "" -> Strings.Split normalized "/" !! i = Some "").
Proof.
  intros Hnew Hne segments.
  destruct (normalizePath_segments config rn rawPath Hnew Hne)
    as (normalized & Hn & _ & Hsplit).
  fold segments in Hsplit.
  exists normalized. split; [done|]. split; [done|]. rewrite Hsplit. split; [|split].
  - intros i item Hi Hon Hdigest.
    assert (Govalidator.IsMD5 item = true) as Hmd5
      by (unfold Govalidator.IsMD5; by rewrite matchRuns_exactly).
    split; [done|]. split; [by apply IsMD5_IsHexadecimal|].
    rewrite list_lookup_imap, Hi. simpl. f_equal. by apply sanitizeSegment_md5.
  - intros i item Hi Hon Hhex Hlower. split.
    + destruct (mixed_case_digest item Hhex Hlower) as [Hhash _].
      by apply orb_false_iff in Hhash as [[? _]%orb_false_iff _].
    + rewrite list_lookup_imap, Hi. simpl. f_equal.
      by apply sanitizeSegment_mixed_case_digest.
  - intros i Hi. by rewrite list_lookup_imap, Hi.
Qed.

Lemma heuristics_in_priority_order_witness :
  exists normalized,
    normalizePath Examples.fullNormalizer
      "/f/d41d8cd98f00b204e9800998ecf8427e//D41D8CD98F00B204E9800998ECF8427E/x"
    = Returns normalized
    /\ Strings.Split normalized "/" = [""; "0"; ":hash"; "0"; "x"]
    /\ Strings.Split normalized "/" !! 2 = Some hashPlaceholder
    /\ Strings.Split normalized "/" !! 3 = Some numberPlaceholder.
Proof.
  destruct (heuristics_in_priority_order (H := Plain.library) Examples.fullConfig
              Examples.fullNormalizer
              "/f/d41d8cd98f00b204e9800998ecf8427e//D41D8CD98F00B204E9800998ECF8427E/x"
              eq_refl ltac:(discriminate))
    as (normalized & Hn & Hsplit & Hlower & Hmixed & _).
  exists normalized. split; [exact Hn|]. split; [rewrite Hsplit; reflexivity|]. split.
  - exact (proj2 (proj2 (Hlower 2 "d41d8cd98f00b204e9800998ecf8427e"
                           eq_refl eq_refl eq_refl))).
  - exact (proj2 (Hmixed 3 "D41D8CD98F00B204E9800998ECF8427E"
                    eq_refl eq_refl eq_refl eq_refl)).
Defined.

(** C4, as stated, fails in its particular case: a valid MD5 digest
    written in upper case is 32 hexadecimal digits, and with the hashes
    and the numbers toggles both on it becomes [0], not [:hash]. *)
Lemma upper_case_digest_becomes_number :
  Bytes.exactly 32 Bytes.isHex "D41D8CD98F00B204E9800998ECF8427E" = true
  /\ sanitizeHashes Examples.fullNormalizer = true
  /\ sanitizeNumbers Examples.fullNormalizer = true
  /\ normalizePath Examples.fullNormalizer "/D41D8CD98F00B204E9800998ECF8427E"
     = Returns "/0"
  /\ normalizePath Examples.fullNormalizer "/D41D8CD98F00B204E9800998ECF8427E"
     <> Returns "/:hash".
Proof. split_and!; [reflexivity..|discriminate]. Qed.

(** C5: the image and font heuristics look at the last segment only.  A
    segment that ends with an image or font extension and is not the
    last one is left as it is; the last one becomes [:image] if it ends
    with an image extension and the images toggle is on, [:font] if it
    ends with a font extension and the fonts toggle is on.  (A segment
    with an extension is no hash, number or UUID; the IP heuristic comes
    first if it takes the segment.) *)
Theorem assets_last_segment_only `{Library} config rn rawPath :
  NewFromConfig config = (Some rn, None) -> rawPath <> "" ->
  let segments :=
    Strings.Split (Path.Clean (applyRules (replaceRules rn) rawPath)) "/" in
  exists normalized,
    normalizePath rn rawPath = Returns normalized
    /\ forall i item,
         segments !! i = Some item ->
         (sanitizeIps rn = true -> IsIP item = false) ->
         (i + 1 <> length segments ->
          Extensions.imageExtensionRegex item = true
          \/ Extensions.fontExtensionRegex item = true ->
          Strings.Split normalized "/" !! i = Some item)
         /\ (i + 1 = length segments ->
             sanitizeImages rn = true ->
             Extensions.imageExtensionRegex item = true ->
             Strings.Split normalized "/" !! i = Some imagePlaceholder)
         /\ (i + 1 = length segments ->
             sanitizeFonts rn = true ->
             Extensions.fontExtensionRegex item = true ->
             Strings.Split normalized "/" !! i = Some fontPlaceholder).
Proof.
  intros Hnew Hne segments.
  destruct (normalizePath_segments config rn rawPath Hnew Hne)
    as (normalized & Hn & _ & Hsplit).
  fold segments in Hsplit.
  exists normalized. split; [done|]. intros i item Hi Hip.
  rewrite Hsplit, list_lookup_imap, Hi. simpl. split; [|split].
  - intros Hlast [Hm|Hm]; f_equal.
    + by apply (sanitizeSegment_not_last _ _ _ _ Extensions.imageExtensions);
        [apply ExtensionFacts.imageExtensions_noDot|..].
    + by apply (sanitizeSegment_not_last _ _ _ _ Extensions.fontExtensions);
        [apply ExtensionFacts.fontExtensions_noDot|..].
  - intros Hlast Hon Hm. f_equal. by apply sanitizeSegment_image.
  - intros Hlast Hon Hm. f_equal. by apply sanitizeSegment_font.
Qed.

Lemma assets_last_segment_only_witness :
  (exists normalized,
      normalizePath Examples.fullNormalizer "/images.png/detail" = Returns normalized
      /\ Strings.Split normalized "/" !! 1 = Some "images.png")
  /\ (exists normalized,
         normalizePath Examples.fullNormalizer "/detail/images.png" = Returns normalized
         /\ Strings.Split normalized "/" !! 2 = Some ":image")
  /\ (exists normalized,
         normalizePath Examples.fullNormalizer "/detail/Sans.WOFF" = Returns normalized
         /\ Strings.Split normalized "/" !! 2 = Some ":font").
Proof.
  split; [|split].
  - destruct (assets_last_segment_only (H := Plain.library) Examples.fullConfig
                Examples.fullNormalizer "/images.png/detail" eq_refl ltac:(discriminate))
      as (normalized & Hn & Hsegments).
    exists normalized. split; [exact Hn|].
    destruct (Hsegments 1 "images.png" eq_refl ltac:(reflexivity)) as (Hkept & _).
    apply Hkept; [simpl; lia|left; reflexivity].
  - destruct (assets_last_segment_only (H := Plain.library) Examples.fullConfig
                Examples.fullNormalizer "/detail/images.png" eq_refl ltac:(discriminate))
      as (normalized & Hn & Hsegments).
    exists normalized. split; [exact Hn|].
    destruct (Hsegments 2 "images.png" eq_refl ltac:(reflexivity)) as (_ & Himage & _).
    apply Himage; reflexivity.
  - destruct (assets_last_segment_only (H := Plain.library) Examples.fullConfig
                Examples.fullNormalizer "/detail/Sans.WOFF" eq_refl ltac:(discriminate))
      as (normalized & Hn & Hsegments).
    exists normalized. split; [exact Hn|].
    destruct (Hsegments 2 "Sans.WOFF" eq_refl ltac:(reflexivity)) as (_ & _ & Hfont).
    apply Hfont; reflexivity.
Defined.

(** C6: the key is the method, the sanitized path and, when the
    configured parameter name is not empty, every value the query binds
    to that name, in the order of the query string, nothing removed and
    nothing sorted, joined by [":"]. *)
Theorem getNormalizedEventKey_joins `{Library} {Other : Type} config rn
    (event : HttpRequest Other) :
  NewFromConfig config = (Some rn, None) ->
  exists normalized,
    normalizePath rn (Path (EventURL event)) = Returns normalized
    /\ getNormalizedEventKey rn event
       = Returns (Strings.Join
                    ([Method event; normalized]
                     ++ operationNames rn (EventURL event))
                    ":").
Proof.
  intros (_ & Hp & _)%NewFromConfig_Some.
  destruct (normalizePath_returns rn (Path (EventURL event)) Hp) as (normalized & Hn & _).
  exists normalized. split; [done|]. by apply getNormalizedEventKey_returns.
Qed.

Lemma getNormalizedEventKey_joins_witness :
  NewFromConfig Examples.numbersConfig = (Some Examples.numbersNormalizer, None)
  /\ getNormalizedEventKey Examples.numbersNormalizer Examples.listUsers
     = Returns "GET:/users/0:list:summary".
Proof.
  split; [reflexivity|].
  destruct (getNormalizedEventKey_joins (H := Plain.library) Examples.numbersConfig
              Examples.numbersNormalizer Examples.listUsers eq_refl)
    as (normalized & Hn & Hkey).
  injection Hn as <-. exact Hkey.
Defined.

(** C7: an event that enters the stage with a non-empty [EventKey] is
    sent on as it is, its key and every other field untouched, whatever
    its path and whatever the normalizer (its rules need not even
    compile): the body of the loop returns the event itself, and the
    worker that receives it can only send it. *)
Theorem keyed_event_passes_through `{Library} {Other : Type} rn
    (event : HttpRequest Other) :
  EventKey event <> "" ->
  Run_body rn event = Returns event
  /\ forall up inp ic outp oc,
       let received :=
         {| upstream := up; inputEventsChan := event :: inp; inputClosed := ic;
            worker := Receiving; outputEventsChan := outp; outputClosed := oc |} in
       rtc (step rn) received
         {| upstream := up; inputEventsChan := inp; inputClosed := ic;
            worker := Receiving; outputEventsChan := outp ++ [event];
            outputClosed := oc |}
       /\ forall s', step rn received s' ->
                     worker s' = Sending event
                     \/ (worker s' = Receiving
                         /\ outputEventsChan s' = outp
                         /\ exists sent, inputEventsChan s' = event :: inp ++ sent).
Proof.
  intros Hkey. pose proof (Run_body_keyed rn event Hkey) as Hbody.
  split; [done|]. intros up inp ic outp oc received. split.
  - eapply rtc_l; [by apply step_receive|]. apply rtc_once, step_send.
  - intros s' Hstep. subst received. inversion Hstep; subst; simpl.
    + right. split; [done|]. split; [done|]. by eexists [_].
    + right. split; [done|]. split; [done|]. exists []. by rewrite app_nil_r.
    + left. congruence.
    + congruence.
Qed.

Lemma keyed_event_passes_through_witness :
  EventKey Examples.preset = "preset"
  /\ Run_body Examples.fullNormalizer Examples.preset = Returns Examples.preset.
Proof.
  split; [reflexivity|].
  exact (proj1 (keyed_event_passes_through (H := Plain.library)
                  Examples.fullNormalizer Examples.preset ltac:(discriminate))).
Defined.

(** C8: if one pattern of the configuration does not compile,
    [NewFromConfig] returns an error and no normalizer; if every pattern
    compiles, it returns a normalizer and no error, with the fields of
    the configuration. *)
Theorem NewFromConfig_fails_on_invalid_pattern `{Library} config :
  ((exists r, r ∈ ReplaceRules config /\ regexpCompile (Regexp r) = None) ->
   exists pattern,
     NewFromConfig config = (None, Some (failedToCompileRegexp pattern))
     /\ regexpCompile pattern = None)
  /\ ((forall r, r ∈ ReplaceRules config -> is_Some (regexpCompile (Regexp r))) ->
      exists rn,
        NewFromConfig config = (Some rn, None)
        /\ getParamWithEventIdentifier rn = GetParamWithEventIdentifier config
        /\ sanitizeHashes rn = SanitizeHashes config
        /\ sanitizeNumbers rn = SanitizeNumbers config
        /\ sanitizeUids rn = SanitizeUids config
        /\ sanitizeIps rn = SanitizeIps config
        /\ sanitizeImages rn = SanitizeImages config
        /\ sanitizeFonts rn = SanitizeFonts config).
Proof.
  split.
  - intros (r & Hin & Hr).
    assert (Exists (fun r => regexpCompile (Regexp r) = None) (ReplaceRules config))
      as Hex by (apply Exists_exists; eauto).
    destruct (precompileLoop_error _ 0 (ReplaceRules config) Hex)
      as (rules' & r' & Hloop & _ & Hr').
    exists (Regexp r'). split; [|done].
    unfold NewFromConfig, precompileRegexps. simpl. by rewrite Hloop.
  - intros Hall. apply Forall_forall in Hall.
    destruct (precompileLoop_ok _ [] Hall) as (range' & Hloop & _).
    simpl in Hloop. eexists. split.
    + unfold NewFromConfig, precompileRegexps. simpl. by rewrite Hloop.
    + by repeat split.
Qed.

Lemma NewFromConfig_fails_on_invalid_pattern_witness :
  NewFromConfig Examples.brokenConfig = (None, Some (failedToCompileRegexp "("))
  /\ exists rn, NewFromConfig Examples.fullConfig = (Some rn, None).
Proof.
  split.
  - destruct (proj1 (NewFromConfig_fails_on_invalid_pattern (H := Plain.library)
                       Examples.brokenConfig)) as (pattern & Hnew & _).
    + exists (Examples.rule "(" "/never"). split; [|reflexivity].
      apply list_elem_of_In. simpl. tauto.
    + vm_compute in Hnew. injection Hnew as <-. reflexivity.
  - destruct (proj2 (NewFromConfig_fails_on_invalid_pattern (H := Plain.library)
                       Examples.fullConfig)) as (rn & Hnew & _).
    + intros r Hr. apply list_elem_of_singleton in Hr. subst r. by eexists.
    + by exists rn.
Defined.

(** C9: in front of a producer that sends [N] events and closes the
    input channel, the stage of a constructed normalizer sends exactly
    the [N] events, each the received one with at most its key filled,
    in the order received.  Whatever the interleaving: what has been
    sent so far is a prefix of that sequence; the output channel is
    closed only once all of it has been sent and the input is closed and
    drained; the stage takes at most [3N + 2] steps, it can stop nowhere
    but with its output closed, and it does get there. *)
Theorem Run_forwards_every_event_in_order `{Library} {Other : Type} config rn
    (events : list (HttpRequest Other)) :
  NewFromConfig config = (Some rn, None) ->
  let outputs := forwarded rn <$> events in
  length outputs = length events
  /\ Forall2 (fun e e' =>
                Run_body rn e = Returns e'
                /\ Method e' = Method e /\ EventURL e' = EventURL e
                /\ OtherFields e' = OtherFields e)
       events outputs
  /\ (forall s, rtc (step rn) (start events) s ->
        outputEventsChan s `prefix_of` outputs
        /\ (outputClosed s = true ->
            outputEventsChan s = outputs
            /\ inputEventsChan s = [] /\ inputClosed s = true /\ upstream s = [])
        /\ (stuck rn s -> outputClosed s = true))
  /\ (forall k s, nsteps (step rn) k (start events) s -> k <= 3 * length events + 2)
  /\ exists s, rtc (step rn) (start events) s
               /\ outputClosed s = true /\ outputEventsChan s = outputs.
Proof.
  intros (_ & Hp & _)%NewFromConfig_Some outputs. subst outputs.
  split; [apply length_fmap|]. split; [|split; [|split]].
  - apply Forall2_fmap_r, Forall_Forall2_diag, Forall_forall. intros e _.
    destruct (Run_body_returns rn e Hp) as (e' & He' & ? & ? & ? & _).
    unfold compose, forwarded. rewrite He'. by split_and!.
  - intros s Hs. pose proof (steps_ok _ _ _ Hp Hs) as Hok. split; [|split].
    + by apply stageOk_prefix.
    + intros Hclosed. destruct Hok as (Hev & Hw & Hoc & Hfin & Hic).
      pose proof (proj1 Hoc Hclosed) as Hf. destruct (Hfin Hf) as [Hinp Hin].
      rewrite Hev, Hf, Hinp, (Hic Hin). simpl. by rewrite app_nil_r.
    + intros Hstuck.
      assert (worker s = Finished \/ worker s <> Finished) as [Hf|Hnf]
        by (destruct (worker s); (by left) || (by right)).
      * by apply (stageOk_finished _ _ _ Hok).
      * destruct (stage_progress _ _ _ Hp Hok Hnf) as (s' & Hstep).
        by destruct (Hstuck s').
  - intros k s Hk. apply nsteps_stepsLeft in Hk.
    unfold stepsLeft, start in Hk. simpl in Hk. lia.
  - destruct (stage_finishes rn events (start events) Hp (start_ok rn events))
      as (s & Hs & Hf).
    exists s. split; [done|].
    destruct (stageOk_finished _ _ _ (steps_ok _ _ _ Hp Hs) Hf). done.
Qed.

Lemma Run_forwards_every_event_in_order_witness :
  exists s,
    rtc (step Examples.numbersNormalizer) (start [Examples.listUsers; Examples.preset]) s
    /\ outputClosed s = true
    /\ outputEventsChan s
       = [Examples.request "GET" "/users/42" "op=list&op=summary"
            "GET:/users/0:list:summary";
          Examples.preset].
Proof.
  exact (proj2 (proj2 (proj2 (proj2
    (Run_forwards_every_event_in_order (H := Plain.library) Examples.numbersConfig
       Examples.numbersNormalizer [Examples.listUsers; Examples.preset] eq_refl))))).
Defined.

(** C10: every rule of a normalizer that [NewFromConfig] returned
    carries the compiled form of its own pattern, so that [process]
    never takes the branch that compiles it: on every rule and every
    path it returns, and leaves the rule as it was; [normalizePath]
    never panics. *)
Theorem constructed_rules_are_precompiled `{Library} config rn :
  NewFromConfig config = (Some rn, None) ->
  Forall (fun r => exists compiled,
              regexpCompiled r = Some compiled
              /\ regexpCompile (Regexp r) = Some compiled) (replaceRules rn)
  /\ (forall r path, r ∈ replaceRules rn ->
        exists result, process r path = Returns (r, result))
  /\ (forall rawPath, normalizePath rn rawPath <> Panics).
Proof.
  intros (_ & Hp & _)%NewFromConfig_Some. split; [exact Hp|]. split.
  - intros r path Hr. unfold precompiled in Hp. rewrite Forall_forall in Hp.
    destruct (Hp r Hr) as (compiled & Hc & _).
    eexists. by apply process_precompiled.
  - intros rawPath. by destruct (normalizePath_returns rn rawPath Hp) as (q & -> & _).
Qed.

Lemma constructed_rules_are_precompiled_witness :
  exists result,
    process (H := Plain.library) (Examples.compiledRule "/v2/orders/123" "/legacy")
      "/v2/orders/12"
    = Returns (Examples.compiledRule "/v2/orders/123" "/legacy", result).
Proof.
  destruct (constructed_rules_are_precompiled (H := Plain.library) Examples.fullConfig
              Examples.fullNormalizer eq_refl) as (_ & Hprocess & _).
  apply Hprocess, list_elem_of_singleton. reflexivity.
Defined.

(** * Further properties of the normalizer *)

(** ** What [normalizePath] returns *)

Section MoreNormalizePath.

Context `{Library}.

Import Strings Path Govalidator Extensions StringFacts PathFacts ExtensionFacts.

Lemma ruleRegexp_dec rules :
  Forall (fun r => is_Some (ruleRegexp r)) rules
  \/ Exists (fun r => ruleRegexp r = None) rules.
Proof.
  induction rules as [|r rules [IH|IH]].
  - left. constructor.
  - destruct (ruleRegexp r) as [c|] eqn:Hc.
    + left. constructor; [by exists c|done].
    + right. by left.
  - right. by right.
Qed.

(** What [normalizePath] returns, whenever it returns. *)
Lemma normalizePath_inv rn rawPath normalized :
  normalizePath rn rawPath = Returns normalized ->
  (rawPath = "" /\ normalized = "/")
  \/ (rawPath <> ""
      /\ Forall (fun r => is_Some (ruleRegexp r)) (replaceRules rn)
      /\ normalized = sanitizeRewritten rn (applyRules (replaceRules rn) rawPath)).
Proof.
  unfold normalizePath. destruct (String.eqb_spec rawPath "") as [->|Hne].
  - intros [= <-]. by left.
  - destruct (ruleRegexp_dec (replaceRules rn)) as [Hall|Hex].
    + rewrite (rewriteLoop_returns _ _ Hall). simpl. rewrite sanitizeLoop_imap.
      intros [= <-]. right. by split_and!.
    + by rewrite (rewriteLoop_panics _ _ Hex).
Qed.

End MoreNormalizePath.

Section MoreNormalizePath2.

Context `{Library}.

Import Strings Path Govalidator Extensions StringFacts PathFacts ExtensionFacts.

Lemma imap_id {A} (f : nat -> A -> A) (l : list A) :
  (forall i x, f i x = x) -> imap f l = l.
Proof.
  intros Hf. revert f Hf. induction l as [|x l IH]; intros f Hf; simpl; [done|].
  rewrite Hf. f_equal. apply IH. intros i y. apply Hf.
Qed.

Lemma sanitizeSegment_off rn n i s :
  sanitizersOff rn -> Spec.sanitizeSegment rn n i s = s.
Proof.
  intros (H1 & H2 & H3 & H4 & H5 & H6).
  unfold Spec.sanitizeSegment, Spec.firstMatch, Spec.heuristics. simpl.
  rewrite H1, H2, H3, H4. simpl.
  destruct (i + 1 =? n)%nat; simpl; rewrite ?H5, ?H6; simpl; by destruct (String.eqb s "").
Qed.

Lemma isRooted_Clean path : path <> "" -> isRooted (Clean path) = isRooted path.
Proof.
  intros Hne. unfold Clean. apply String.eqb_neq in Hne. rewrite Hne.
  set (b := foldl _ _ _).
  assert (bufferOk (isRooted path) b) as (names & Hout & Hnames & Hroot).
  { apply foldl_cleanElem_ok; [apply Split_items_noSep|].
    exists []. simpl. by repeat split. }
  destruct (isRooted path) eqn:Hr; [done|].
  destruct (out b) as [|x rest] eqn:E; [done|].
  assert (x <> "" /\ noSep "/" x = true) as [Hx Hxs].
  { destruct (dotdot b); simpl in Hout.
    - subst names. inversion Hnames as [|? ? (? & ? & ? & ?) _]. done.
    - injection Hout as -> _. done. }
  by apply isRooted_Join_name.
Qed.

Lemma isRooted_cleanItems items :
  cleanItems items ->
  isRooted (Join items "/") = match items with "" :: _ => true | _ => false end.
Proof.
  destruct 1 as [|names Hne Hn| |k names Hne Hn]; [done| |done|].
  - by destruct names.
  - destruct k as [|k]; simpl.
    + destruct names as [|x names]; [done|].
      inversion Hn as [|? ? (Hx & _ & _ & Hs) _]; subst.
      rewrite isRooted_Join_name by done. by destruct x.
    + by destruct (replicate k ".." ++ names).
Qed.

Lemma sanitizeSegment_nonempty rn n i s :
  s <> "" -> Spec.sanitizeSegment rn n i s <> "".
Proof.
  intros Hs.
  destruct (sanitizeSegment_cases rn n i s)
    as [E|[[E _]|[[E _]|[[E _]|[[E _]|[[E _]|[E _]]]]]]]; by rewrite E.
Qed.

Lemma isRooted_sanitizeRewritten rn path :
  isRooted (sanitizeRewritten rn path) = isRooted (Clean path).
Proof.
  unfold sanitizeRewritten.
  rewrite (isRooted_cleanItems _ (sanitizeRewritten_cleanItems rn path)).
  rewrite <- (Join_Split (Clean path) "/") at 3.
  rewrite (isRooted_cleanItems _ (Split_Clean path)).
  destruct (Split (Clean path) "/") as [|x items]; [done|]. simpl.
  destruct (String.eqb_spec x "") as [->|Hx]; [done|].
  pose proof (sanitizeSegment_nonempty rn (S (length items)) 0 x Hx).
  destruct (Spec.sanitizeSegment rn (S (length items)) 0 x); [done|].
  by destruct x.
Qed.

Lemma rewriteLoop_app rules1 rules2 rawPath :
  rewriteLoop (rules1 ++ rules2) rawPath
  = (rewriteLoop rules1 rawPath ≫= rewriteLoop rules2).
Proof.
  revert rawPath. induction rules1 as [|r rules1 IH]; intros rawPath; [done|].
  simpl. destruct (process r rawPath) as [[n' p']|]; simpl; [apply IH|done].
Qed.

Lemma applyRules_app rules1 rules2 rawPath :
  applyRules (rules1 ++ rules2) rawPath = applyRules rules2 (applyRules rules1 rawPath).
Proof. unfold applyRules. apply foldl_app. Qed.

Lemma applyRules_unmatched rules path :
  (forall r compiled, r ∈ rules -> ruleRegexp r = Some compiled ->
                      MatchString compiled path = false) ->
  applyRules rules path = path.
Proof.
  intros Hsilent. unfold applyRules.
  induction rules as [|r rules IH]; [done|].
  simpl. unfold applyRule at 2, Spec.apply.
  destruct (ruleRegexp r) as [c|] eqn:Hc.
  - rewrite (Hsilent r c) by (by left || done).
    apply IH. intros r' c' Hin. apply Hsilent. by right.
  - apply IH. intros r' c' Hin. apply Hsilent. by right.
Qed.

Lemma normalizePath_applyRules rn rawPath1 rawPath2 :
  rawPath1 <> "" -> rawPath2 <> "" ->
  applyRules (replaceRules rn) rawPath1 = applyRules (replaceRules rn) rawPath2 ->
  normalizePath rn rawPath1 = normalizePath rn rawPath2.
Proof.
  intros H1%String.eqb_neq H2%String.eqb_neq Heq. unfold normalizePath.
  rewrite H1, H2.
  destruct (ruleRegexp_dec (replaceRules rn)) as [Hall|Hex].
  - by rewrite !(rewriteLoop_returns _ _ Hall), Heq.
  - by rewrite !(rewriteLoop_panics _ _ Hex).
Qed.

End MoreNormalizePath2.

Section Postcondition.

Context `{Library}.

Import Strings Path Govalidator Extensions StringFacts PathFacts ExtensionFacts.

(** What is true of a sanitized segment. *)
Lemma sanitizeSegment_post rn n i s :
  let t := Spec.sanitizeSegment rn n i s in
  (sanitizeHashes rn = true -> IsMD5 t || IsSHA1 t || IsSHA256 t = false)
  /\ (sanitizeNumbers rn = true -> IsNumeric t || IsHexadecimal t = true ->
      t = "" \/ t = numberPlaceholder)
  /\ (sanitizeUids rn = true -> IsUUID t || IsUUIDv4 t = false)
  /\ (sanitizeIps rn = true -> IsIP t = true -> t = "" \/ t ∈ placeholders)
  /\ (i + 1 = n -> sanitizeImages rn = true -> imageExtensionRegex t = false)
  /\ (i + 1 = n -> sanitizeFonts rn = true -> fontExtensionRegex t = false).
Proof.
  unfold Spec.sanitizeSegment, Spec.firstMatch, Spec.heuristics. simpl.
  destruct (String.eqb_spec s "") as [->|Hs].
  { split_and!; try done; by left. }
  destruct (sanitizeHashes rn && _) eqn:E1.
  { simpl. split_and!; try done.
    intros _ _. right. unfold placeholders. set_solver. }
  destruct (sanitizeNumbers rn && _) eqn:E2.
  { simpl. split_and!; try done.
    - intros _ _. by right.
    - intros _ _. right. unfold placeholders. set_solver. }
  destruct (sanitizeUids rn && _) eqn:E3.
  { simpl. split_and!; try done.
    intros _ _. right. unfold placeholders. set_solver. }
  destruct (sanitizeIps rn && _) eqn:E4.
  { simpl. split_and!; try done.
    intros _ _. right. unfold placeholders. set_solver. }
  assert ((sanitizeHashes rn = true -> IsMD5 s || IsSHA1 s || IsSHA256 s = false)
          /\ (sanitizeNumbers rn = true -> IsNumeric s || IsHexadecimal s = false)
          /\ (sanitizeUids rn = true -> IsUUID s || IsUUIDv4 s = false)
          /\ (sanitizeIps rn = true -> IsIP s = false)) as (P1 & P2 & P3 & P4).
  { split_and!; intros Hon; rewrite Hon in *; done. }
  destruct (i + 1 =? n)%nat eqn:E5; simpl.
  - destruct (sanitizeImages rn && _) eqn:E6.
    { simpl. split_and!; try done.
      intros _ _. right. unfold placeholders. set_solver. }
    destruct (sanitizeFonts rn && _) eqn:E7.
    { simpl. split_and!; try done.
      intros _ _. right. unfold placeholders. set_solver. }
    split_and!; try done.
    + intros Hon Hm. rewrite (P2 Hon) in Hm. done.
    + intros Hon Hm. rewrite (P4 Hon) in Hm. done.
    + intros _ Hon. rewrite Hon in E6. done.
    + intros _ Hon. rewrite Hon in E7. done.
  - apply Nat.eqb_neq in E5. split_and!; try done.
    + intros Hon Hm. rewrite (P2 Hon) in Hm. done.
    + intros Hon Hm. rewrite (P4 Hon) in Hm. done.
Qed.

End Postcondition.

(** ** [normalizePath] *)

(** Whatever [normalizePath] returns is a cleaned path: [path.Clean]
    leaves it as it is, and its fields are those of a cleaned path (no
    empty field but the ones around the root slash, no dot, no [..]
    after a name). *)
Theorem normalizePath_returns_clean_path `{Library} rn rawPath normalized :
  normalizePath rn rawPath = Returns normalized ->
  Path.Clean normalized = normalized
  /\ Path.cleanItems (Strings.Split normalized "/").
Proof.
  intros [[-> ->]|(_ & _ & ->)]%normalizePath_inv.
  - split; [done|apply Path.clean_root].
  - split; [apply Clean_sanitizeRewritten|].
    rewrite Split_sanitizeRewritten. apply sanitizeRewritten_cleanItems.
Qed.

Lemma normalizePath_returns_clean_path_witness :
  Path.Clean "/users/0/:image" = "/users/0/:image"
  /\ Path.cleanItems (Strings.Split "/users/0/:image" "/").
Proof.
  exact (normalizePath_returns_clean_path (H := Plain.library)
           Examples.fullNormalizer "//users/./42//logo.png/" "/users/0/:image" eq_refl).
Defined.

(** With no rule and every sanitizer off, [normalizePath] is
    [path.Clean] on every non-empty path: splitting and joining again
    loses nothing. *)
Theorem normalizePath_without_sanitizers `{Library} rn rawPath :
  replaceRules rn = [] -> sanitizersOff rn -> rawPath <> "" ->
  normalizePath rn rawPath = Returns (Path.Clean rawPath).
Proof.
  intros Hrules Hoff Hne. rewrite normalizePath_precompiled; [|by rewrite Hrules; constructor|done].
  rewrite Hrules. unfold applyRules, sanitizeRewritten. simpl.
  rewrite imap_id by (intros i x; by apply sanitizeSegment_off).
  by rewrite StringFacts.Join_Split.
Qed.

Lemma normalizePath_without_sanitizers_witness :
  normalizePath (Examples.normalizer [] false "") "a/../../42/x.png/"
  = Returns "../42/x.png".
Proof.
  apply (normalizePath_without_sanitizers (H := Plain.library)
           (Examples.normalizer [] false "") "a/../../42/x.png/").
  - reflexivity.
  - repeat split.
  - discriminate.
Defined.

(** [normalizePath] panics exactly on a non-empty path when some rule
    has no compiled pattern and a pattern that does not compile; the
    path itself plays no part, and the empty path never panics. *)
Theorem normalizePath_panics_iff `{Library} rn rawPath :
  normalizePath rn rawPath = Panics
  <-> rawPath <> ""
      /\ exists r, r ∈ replaceRules rn
                   /\ regexpCompiled r = None
                   /\ regexpCompile (Regexp r) = None.
Proof.
  split.
  - intros Hp. destruct (String.eqb_spec rawPath "") as [->|Hne]; [done|].
    split; [done|].
    destruct (ruleRegexp_dec (replaceRules rn)) as [Hall|Hex].
    + unfold normalizePath in Hp. apply String.eqb_neq in Hne.
      by rewrite Hne, (rewriteLoop_returns _ _ Hall) in Hp.
    + apply Exists_exists in Hex as (r & Hin & Hr). exists r. split; [done|].
      unfold ruleRegexp in Hr. by destruct (regexpCompiled r).
  - intros (Hne & r & Hin & Hc & Hr). unfold normalizePath.
    apply String.eqb_neq in Hne. rewrite Hne.
    rewrite rewriteLoop_panics; [done|].
    apply Exists_exists. exists r. split; [done|].
    unfold ruleRegexp. by rewrite Hc.
Qed.

Lemma normalizePath_panics_iff_witness :
  normalizePath (Examples.normalizer [Examples.rule "/ok" "/x"; Examples.rule "(" "/y"]
                   true "") "/anything" = Panics.
Proof.
  apply (normalizePath_panics_iff (H := Plain.library)).
  split; [discriminate|].
  exists (Examples.rule "(" "/y"). split; [|split; reflexivity].
  apply list_elem_of_In. simpl. tauto.
Defined.

(** Compiling lazily or at construction gives the same results: the
    struct literal of a configuration whose rules carry no compiled
    pattern, used as it is, normalizes every path as the normalizer
    [NewFromConfig] makes of that configuration. *)
Theorem lazy_compilation_agrees `{Library} config rn rawPath :
  NewFromConfig config = (Some rn, None) ->
  Forall (fun r => regexpCompiled r = None) (ReplaceRules config) ->
  normalizePath (uncompiled config) rawPath = normalizePath rn rawPath.
Proof.
  intros Hnew Hnone.
  destruct (NewFromConfig_Some _ _ _ Hnew)
    as (_ & Hp & Hrules & Hq & H1 & H2 & H3 & H4 & H5 & H6).
  destruct (String.eqb_spec rawPath "") as [->|Hne]; [done|].
  rewrite (normalizePath_precompiled rn) by done.
  assert (Forall (fun r => is_Some (ruleRegexp r)) (ReplaceRules config)) as Hall.
  { clear -Hrules Hnone. induction Hrules as [|r r' l l' (c & Hc & _) _ IH]; [constructor|].
    inversion Hnone as [|? ? Hr Hl]; subst. constructor; [|by apply IH].
    exists c. unfold ruleRegexp. by rewrite Hr. }
  unfold normalizePath. apply String.eqb_neq in Hne. rewrite Hne.
  rewrite (rewriteLoop_returns _ _ Hall). simpl. rewrite sanitizeLoop_imap.
  f_equal.
  assert (applyRules (ReplaceRules config) rawPath = applyRules (replaceRules rn) rawPath)
    as ->.
  { clear -Hrules Hnone. unfold applyRules. revert rawPath.
    induction Hrules as [|r r' l l' (c & Hc & ->) _ IH]; intros rawPath; [done|].
    inversion Hnone as [|? ? Hr Hl]; subst. simpl. rewrite <- (IH Hl). f_equal.
    unfold applyRule, ruleRegexp. simpl. by rewrite Hr, Hc. }
  unfold sanitizeRewritten. f_equal. apply imap_ext. intros i x _.
  unfold Spec.sanitizeSegment, Spec.firstMatch, Spec.heuristics,
    Spec.hashes, Spec.numbers, Spec.uuids, Spec.ips, Spec.images, Spec.fonts.
  simpl. by rewrite H1, H2, H3, H4, H5, H6.
Qed.

Lemma lazy_compilation_agrees_witness :
  normalizePath (uncompiled Examples.fullConfig) "/v2/orders/123"
  = normalizePath Examples.fullNormalizer "/v2/orders/123".
Proof.
  apply (lazy_compilation_agrees (H := Plain.library) Examples.fullConfig).
  - reflexivity.
  - repeat constructor.
Defined.

(** A rooted path gives a rooted result and a relative path a relative
    one: for a non-empty path the result starts with a slash exactly
    when the path does once the rules have rewritten it.  The empty
    path, which is not rooted, is the exception: its result is the
    root. *)
Theorem normalizePath_keeps_rootedness `{Library} rn rawPath normalized :
  normalizePath rn rawPath = Returns normalized ->
  Path.isRooted normalized
  = if String.eqb rawPath "" then true
    else Path.isRooted (applyRules (replaceRules rn) rawPath).
Proof.
  intros [[-> ->]|(Hne & _ & ->)]%normalizePath_inv; [done|].
  apply String.eqb_neq in Hne. rewrite Hne.
  rewrite isRooted_sanitizeRewritten.
  destruct (String.eqb_spec (applyRules (replaceRules rn) rawPath) "") as [->|Hp]; [done|].
  by apply isRooted_Clean.
Qed.

Lemma normalizePath_keeps_rootedness_witness :
  Path.isRooted "../0" = Path.isRooted "../a/../42"
  /\ Path.isRooted "/" = true.
Proof.
  split.
  - exact (normalizePath_keeps_rootedness (H := Plain.library)
             Examples.fullNormalizer "../a/../42" "../0" eq_refl).
  - exact (normalizePath_keeps_rootedness (H := Plain.library)
             Examples.fullNormalizer "" "/" eq_refl).
Defined.

(** A path the rules rewrite to nothing, or to something [path.Clean]
    reduces to the dot, is normalized to the dot, not to the root that
    the empty path gets. *)
Theorem normalizePath_of_nothing_left `{Library} config rn rawPath :
  NewFromConfig config = (Some rn, None) ->
  rawPath <> "" ->
  Path.Clean (applyRules (replaceRules rn) rawPath) = "." ->
  (sanitizeIps rn = true -> IsIP "." = false) ->
  normalizePath rn rawPath = Returns ".".
Proof.
  intros (_ & Hp & _)%NewFromConfig_Some Hne Hdot Hip.
  rewrite normalizePath_precompiled by done.
  unfold sanitizeRewritten. rewrite Hdot. simpl. rewrite sanitizeSegment_dot.
  destruct (sanitizeIps rn); [by rewrite Hip|done].
Qed.

Lemma normalizePath_of_nothing_left_witness :
  normalizePath (Examples.normalizer [Examples.compiledRule "/v2" ""] true "")
    "/api/v2/orders" = Returns ".".
Proof.
  apply (normalizePath_of_nothing_left (H := Plain.library)
           (Examples.config [Examples.rule "/v2" ""] true "")).
  - reflexivity.
  - discriminate.
  - reflexivity.
  - reflexivity.
Defined.

(** Two paths that the same rule matches, no rule before it matching
    either, are normalized to the same result: what the paths were is
    forgotten. *)
Theorem same_rule_same_result `{Library} rn before rule after compiled
    rawPath1 rawPath2 :
  replaceRules rn = before ++ rule :: after ->
  (forall r c, r ∈ before -> ruleRegexp r = Some c ->
               MatchString c rawPath1 = false /\ MatchString c rawPath2 = false) ->
  ruleRegexp rule = Some compiled ->
  MatchString compiled rawPath1 = true ->
  MatchString compiled rawPath2 = true ->
  rawPath1 <> "" -> rawPath2 <> "" ->
  normalizePath rn rawPath1 = normalizePath rn rawPath2.
Proof.
  intros Hrules Hbefore Hc Hm1 Hm2 Hne1 Hne2.
  apply normalizePath_applyRules; [done..|].
  rewrite Hrules, !applyRules_app.
  rewrite !(applyRules_unmatched before)
    by (intros r c Hr Hrc; by destruct (Hbefore r c Hr Hrc)).
  change (applyRules (rule :: after) rawPath1)
    with (applyRules after (applyRule rule rawPath1)).
  change (applyRules (rule :: after) rawPath2)
    with (applyRules after (applyRule rule rawPath2)).
  unfold applyRule, Spec.apply. by rewrite Hc, Hm1, Hm2.
Qed.

Lemma same_rule_same_result_witness :
  normalizePath (Examples.normalizer
                   [Examples.compiledRule "/admin" "/a"; Examples.compiledRule "/v2/" "/legacy"]
                   true "") "/v2/orders/123"
  = normalizePath (Examples.normalizer
                     [Examples.compiledRule "/admin" "/a"; Examples.compiledRule "/v2/" "/legacy"]
                     true "") "/api/v2/users".
Proof.
  apply (same_rule_same_result (H := Plain.library) _
           [Examples.compiledRule "/admin" "/a"] (Examples.compiledRule "/v2/" "/legacy")
           [] "/v2/").
  - reflexivity.
  - intros r c Hr Hc. apply list_elem_of_singleton in Hr. subst r.
    injection Hc as <-. split; reflexivity.
  - reflexivity.
  - reflexivity.
  - reflexivity.
  - discriminate.
  - discriminate.
Defined.

(** No segment of the result is left for an enabled heuristic to match:
    with the hashes toggle on no segment is a hash, with the numbers
    toggle on a numeric or hexadecimal segment is the number placeholder
    (or empty), with the uuids toggle on no segment is a UUID, with the
    ips toggle on a segment [IsIP] accepts is a placeholder (or empty),
    and with the images or fonts toggle on the last segment has no image
    or font extension. *)
Theorem normalizePath_leaves_no_identifier `{Library} rn rawPath normalized :
  rawPath <> "" ->
  normalizePath rn rawPath = Returns normalized ->
  (forall segment, segment ∈ Strings.Split normalized "/" ->
     (sanitizeHashes rn = true ->
      Govalidator.IsMD5 segment || Govalidator.IsSHA1 segment
      || Govalidator.IsSHA256 segment = false)
     /\ (sanitizeNumbers rn = true ->
         Govalidator.IsNumeric segment || Govalidator.IsHexadecimal segment = true ->
         segment = "" \/ segment = numberPlaceholder)
     /\ (sanitizeUids rn = true ->
         Govalidator.IsUUID segment || Govalidator.IsUUIDv4 segment = false)
     /\ (sanitizeIps rn = true -> IsIP segment = true ->
         segment = "" \/ segment ∈ placeholders))
  /\ (forall segment, last (Strings.Split normalized "/") = Some segment ->
        (sanitizeImages rn = true -> Extensions.imageExtensionRegex segment = false)
        /\ (sanitizeFonts rn = true -> Extensions.fontExtensionRegex segment = false)).
Proof.
  intros Hne [[-> _]|(_ & _ & ->)]%normalizePath_inv; [done|].
  rewrite Split_sanitizeRewritten.
  set (segments := Strings.Split _ _). split.
  - intros segment (i & Hi)%list_elem_of_lookup.
    rewrite list_lookup_imap in Hi.
    destruct (segments !! i) as [s|] eqn:Hs; [|done]. injection Hi as <-.
    destruct (sanitizeSegment_post rn (length segments) i s) as (P1 & P2 & P3 & P4 & _).
    by split_and!.
  - intros segment Hlast. rewrite last_lookup, length_imap, list_lookup_imap in Hlast.
    destruct (segments !! pred (length segments)) as [s|] eqn:Hs; [|done].
    injection Hlast as <-.
    assert (pred (length segments) + 1 = length segments) as Hi.
    { apply lookup_lt_Some in Hs. lia. }
    destruct (sanitizeSegment_post rn (length segments) (pred (length segments)) s)
      as (_ & _ & _ & _ & P5 & P6).
    split; intros Hon; [by apply P5|by apply P6].
Qed.

Lemma normalizePath_leaves_no_identifier_witness :
  "0" = "" \/ "0" = numberPlaceholder.
Proof.
  destruct (normalizePath_leaves_no_identifier (H := Plain.library)
              Examples.fullNormalizer "/users/42/feed" "/users/0/0"
              ltac:(discriminate) eq_refl) as [Hsegments _].
  destruct (Hsegments "0") as (_ & Hnumbers & _).
  - apply list_elem_of_In. simpl. tauto.
  - exact (Hnumbers eq_refl eq_refl).
Defined.

Section MoreRules.

Context `{Library}.

(** Where the loop of [precompileRegexps] stops, and what it has
    written by then. *)
Lemma precompileLoop_stops range pre :
  exists before before' rest,
    range = before ++ rest
    /\ Forall2 compiledOf before before'
    /\ ((rest = []
         /\ precompileLoop (length pre) range (pre ++ range) = (pre ++ before', None))
        \/ (exists rule after,
               rest = rule :: after
               /\ regexpCompile (Regexp rule) = None
               /\ precompileLoop (length pre) range (pre ++ range)
                  = (pre ++ before' ++ rest,
                     Some (failedToCompileRegexp (Regexp rule))))).
Proof.
  revert pre. induction range as [|r range IH]; intros pre.
  - exists [], [], []. split; [done|]. split; [constructor|]. left. by rewrite !app_nil_r.
  - simpl. destruct (regexpCompile (Regexp r)) as [c|] eqn:Hc.
    + rewrite alter_app_r_alt by done. rewrite Nat.sub_diag. simpl.
      rewrite (cons_middle _ pre range), app_assoc.
      replace (S (length pre)) with (length (pre ++ [setRegexpCompiled r c]))
        by (rewrite length_app; simpl; lia).
      destruct (IH (pre ++ [setRegexpCompiled r c]))
        as (before & before' & rest & -> & Hb & Hcase).
      exists (r :: before), (setRegexpCompiled r c :: before'), rest.
      split; [done|]. split; [constructor; [by exists c|done]|].
      destruct Hcase as [[-> ->]|(rule & after & -> & Hrule & ->)].
      * left. split; [done|]. by rewrite <- app_assoc.
      * right. exists rule, after. split; [done|]. split; [done|].
        by rewrite <- app_assoc.
    + exists [], [], (r :: range). split; [done|]. split; [constructor|].
      right. exists r, range. by split_and!.
Qed.

Lemma compiledOf_fields before before' :
  Forall2 compiledOf before before' ->
  Forall2 (fun r r' => Regexp r' = Regexp r /\ Replacement r' = Replacement r)
    before before'.
Proof.
  induction 1 as [|r r' l l' (c & _ & ->) _ IH]; constructor; done.
Qed.

Lemma compiledOf_precompiled r :
  (exists compiled, regexpCompiled r = Some compiled
                    /\ regexpCompile (Regexp r) = Some compiled) ->
  compiledOf r r.
Proof. intros (c & Hc & Hr). exists c. split; [done|]. destruct r; simpl in *. by subst. Qed.

Lemma compiledOf_unique r r1 r2 : compiledOf r r1 -> compiledOf r r2 -> r1 = r2.
Proof. intros (c1 & H1 & ->) (c2 & H2 & ->). congruence. Qed.

Lemma Forall2_compiledOf_unique l l1 l2 :
  Forall2 compiledOf l l1 -> Forall2 compiledOf l l2 -> l1 = l2.
Proof.
  intros H1. revert l2. induction H1 as [|r r1 l l1 Hr _ IH]; intros l2 H2.
  - by inversion H2.
  - inversion H2 as [|? r2 ? l2' Hr2 Hl2]; subst. f_equal; [by eapply compiledOf_unique|].
    by apply IH.
Qed.

End MoreRules.

(** ** Rules and construction *)

(** [process] compiles at most once: the receiver it leaves carries the
    compiled pattern, has the same pattern text and replacement, and
    every later call on it returns it unchanged, with the result the
    same pattern gives. *)
Theorem process_compiles_once `{Library} n path compiled :
  ruleRegexp n = Some compiled ->
  exists n',
    process n path = Returns (n', Spec.apply compiled (Replacement n) path)
    /\ regexpCompiled n' = Some compiled
    /\ Regexp n' = Regexp n /\ Replacement n' = Replacement n
    /\ forall path',
         process n' path' = Returns (n', Spec.apply compiled (Replacement n) path').
Proof.
  intros Hc. exists (setRegexpCompiled n compiled).
  split; [by apply process_ruleRegexp|]. split_and!; try done.
  intros path'. by rewrite (process_precompiled _ _ compiled).
Qed.

Lemma process_compiles_once_witness :
  exists n',
    process (H := Plain.library) (Examples.rule "/v2" "/legacy") "/api/v2/x"
    = Returns (n', "/legacy")
    /\ regexpCompiled n' = Some "/v2"
    /\ process n' "/api/v1/x" = Returns (n', "/api/v1/x").
Proof.
  destruct (process_compiles_once (H := Plain.library) (Examples.rule "/v2" "/legacy")
              "/api/v2/x" "/v2" eq_refl) as (n' & Hfirst & Hc & _ & _ & Hnext).
  exists n'. split; [exact Hfirst|]. split; [exact Hc|]. exact (Hnext "/api/v1/x").
Defined.

(** [precompileRegexps] touches nothing but the compiled patterns:
    whether it fails or not, the normalizer it leaves has as many rules,
    each with the pattern text and the replacement it had, and the same
    parameter name and toggles. *)
Theorem precompileRegexps_keeps_rules `{Library} rn :
  let rn' := (precompileRegexps rn).1 in
  Forall2 (fun r r' => Regexp r' = Regexp r /\ Replacement r' = Replacement r)
    (replaceRules rn) (replaceRules rn')
  /\ getParamWithEventIdentifier rn' = getParamWithEventIdentifier rn
  /\ sanitizeHashes rn' = sanitizeHashes rn
  /\ sanitizeNumbers rn' = sanitizeNumbers rn
  /\ sanitizeUids rn' = sanitizeUids rn
  /\ sanitizeIps rn' = sanitizeIps rn
  /\ sanitizeImages rn' = sanitizeImages rn
  /\ sanitizeFonts rn' = sanitizeFonts rn.
Proof.
  unfold precompileRegexps.
  destruct (precompileLoop_stops (replaceRules rn) [])
    as (before & before' & rest & Hrange & Hb & Hcase).
  simpl in Hcase.
  assert (exists err, precompileLoop 0 (replaceRules rn) (replaceRules rn)
                      = (before' ++ rest, err)) as (err & ->).
  { destruct Hcase as [[-> ->]|(rule & after & -> & _ & ->)]; eexists; by rewrite ?app_nil_r. }
  simpl. split; [|done]. rewrite Hrange. apply Forall2_app.
  - by apply compiledOf_fields.
  - apply Forall_Forall2_diag, Forall_forall. done.
Qed.

(** When [precompileRegexps] fails, the error names the first pattern,
    in the order of the list, that does not compile; the rules before it
    are left with their compiled patterns, that rule and the ones after
    it are as they were. *)
Theorem precompileRegexps_stops_at_first_failure `{Library} rn rn' err :
  precompileRegexps rn = (rn', Some err) ->
  exists before before' rule after,
    replaceRules rn = before ++ rule :: after
    /\ Forall2 compiledOf before before'
    /\ regexpCompile (Regexp rule) = None
    /\ err = failedToCompileRegexp (Regexp rule)
    /\ replaceRules rn' = before' ++ rule :: after.
Proof.
  unfold precompileRegexps.
  destruct (precompileLoop_stops (replaceRules rn) [])
    as (before & before' & rest & Hrange & Hb & Hcase).
  simpl in Hcase.
  destruct Hcase as [[-> Hloop]|(rule & after & -> & Hrule & Hloop)];
    rewrite Hloop; intros [= <- <-]; simpl.
  by exists before, before', rule, after.
Qed.

Lemma precompileRegexps_stops_at_first_failure_witness :
  exists before before' rule after,
    [Examples.rule "/ok" "/x"; Examples.rule "(" "/y"; Examples.rule "[" "/z"]
    = before ++ rule :: after
    /\ Forall2 (compiledOf (H := Plain.library)) before before'
    /\ Plain.compile (Regexp rule) = None
    /\ failedToCompileRegexp "(" = failedToCompileRegexp (Regexp rule)
    /\ [Examples.compiledRule "/ok" "/x"; Examples.rule "(" "/y"; Examples.rule "[" "/z"]
       = before' ++ rule :: after.
Proof.
  exact (precompileRegexps_stops_at_first_failure (H := Plain.library)
           (Examples.normalizer
              [Examples.rule "/ok" "/x"; Examples.rule "(" "/y"; Examples.rule "[" "/z"]
              true "")
           (Examples.normalizer
              [Examples.compiledRule "/ok" "/x"; Examples.rule "(" "/y";
               Examples.rule "[" "/z"] true "")
           (failedToCompileRegexp "(") eq_refl).
Defined.

(** [NewFromConfig] writes the compiled patterns into the rule slice it
    shares with the configuration; called again on the configuration as
    the first call left it, it returns the same normalizer. *)
Theorem NewFromConfig_again `{Library} config rn :
  NewFromConfig config = (Some rn, None) ->
  NewFromConfig (withReplaceRules config (replaceRules rn)) = (Some rn, None).
Proof.
  intros Hnew.
  destruct (NewFromConfig_Some _ _ _ Hnew)
    as (_ & Hp & _ & Hq & H1 & H2 & H3 & H4 & H5 & H6).
  unfold NewFromConfig, precompileRegexps. simpl.
  destruct (precompileLoop_ok (replaceRules rn) [])
    as (range' & Hloop & Hr).
  { eapply Forall_impl; [exact Hp|]. intros r (c & _ & Hc). by exists c. }
  simpl in Hloop. rewrite Hloop.
  assert (range' = replaceRules rn) as ->.
  { eapply Forall2_compiledOf_unique; [exact Hr|].
    apply Forall_Forall2_diag. eapply Forall_impl; [exact Hp|].
    intros r Hr'. by apply compiledOf_precompiled. }
  unfold setReplaceRules. simpl. destruct rn; simpl in *. by subst.
Qed.

Lemma NewFromConfig_again_witness :
  NewFromConfig
    (withReplaceRules Examples.fullConfig (replaceRules Examples.fullNormalizer))
  = (Some Examples.fullNormalizer, None).
Proof.
  exact (NewFromConfig_again (H := Plain.library) Examples.fullConfig
           Examples.fullNormalizer eq_refl).
Defined.

Module JoinFacts.

Import Bytes Strings Govalidator.

Lemma append_assoc (a b c : string) : (a +:+ b) +:+ c = a +:+ (b +:+ c).
Proof.
  induction a as [|x a IH]; [done|].
  change (String x ((a +:+ b) +:+ c) = String x (a +:+ b +:+ c)). by rewrite IH.
Qed.

Lemma Join_cons x items sep :
  items <> [] -> Join (x :: items) sep = x +:+ sep +:+ Join items sep.
Proof. by destruct items. Qed.

Lemma Join_app items1 items2 sep :
  items1 <> [] -> items2 <> [] ->
  Join (items1 ++ items2) sep = Join items1 sep +:+ sep +:+ Join items2 sep.
Proof.
  intros H1 H2. induction items1 as [|x [|y items1] IH]; [done| |].
  - simpl app. by rewrite Join_cons.
  - change ((x :: y :: items1) ++ items2) with (x :: (y :: items1) ++ items2).
    rewrite Join_cons by done. rewrite IH by done.
    rewrite (Join_cons x (y :: items1)) by done.
    by rewrite !append_assoc.
Qed.

(** Two fields, or one field with the separator inside: the same join. *)
Lemma Join_merge before a b after sep :
  Join (before ++ [a; b] ++ after) sep = Join (before ++ [a +:+ sep +:+ b] ++ after) sep.
Proof.
  assert (forall l, Join ([a; b] ++ l) sep = Join ([a +:+ sep +:+ b] ++ l) sep) as Hin.
  { intros [|y l]; [done|].
    change ([a; b] ++ y :: l) with (a :: b :: y :: l).
    change ([a +:+ sep +:+ b] ++ y :: l) with ((a +:+ sep +:+ b) :: y :: l).
    rewrite (Join_cons a), (Join_cons b), (Join_cons (a +:+ sep +:+ b)) by done.
    by rewrite !append_assoc. }
  destruct before as [|x before]; [apply Hin|].
  rewrite !(Join_app (x :: before)) by done. by rewrite Hin.
Qed.

Lemma Join_two_nonempty a b items sep : sep <> "" -> Join (a :: b :: items) sep <> "".
Proof.
  intros Hsep. rewrite Join_cons by done.
  destruct a; [|done]. simpl. by destruct sep.
Qed.

Lemma matchRun_weaken n (p q : ascii -> bool) s rest :
  (forall c, p c = true -> q c = true) ->
  matchRun n p s = Some rest -> matchRun n q s = Some rest.
Proof.
  intros Hpq. revert s. induction n as [|n IH]; intros s; simpl; [done|].
  destruct s as [|c s]; [done|]. destruct (p c) eqn:Hc; [|done].
  rewrite (Hpq _ Hc). apply IH.
Qed.

Lemma matchRun_add n m p s :
  matchRun (n + m) p s = matchRun n p s ≫= matchRun m p.
Proof.
  revert s. induction n as [|n IH]; intros s; simpl; [done|].
  destruct s as [|c s]; [done|]. destruct (p c); [apply IH|done].
Qed.

Lemma IsUUIDv4_IsUUID s : IsUUIDv4 s = true -> IsUUID s = true.
Proof.
  unfold IsUUIDv4, IsUUID. cbn [matchRuns].
  destruct (matchRun 8 isLowerHex s) as [s1|]; [|done].
  destruct (matchRun 1 (byte "-") s1) as [s2|]; [|done].
  destruct (matchRun 4 isLowerHex s2) as [s3|]; [|done].
  destruct (matchRun 1 (byte "-") s3) as [s4|]; [|done].
  destruct (matchRun 1 (byte "4") s4) as [s5|] eqn:E4; [|done].
  destruct (matchRun 3 isLowerHex s5) as [s6|] eqn:E5; [|done].
  assert (matchRun 4 isLowerHex s4 = Some s6) as ->.
  { change 4 with (1 + 3). rewrite matchRun_add.
    rewrite (matchRun_weaken 1 (byte "4") isLowerHex s4 s5); [done| |done].
    intros c <-%Ascii.eqb_eq. done. }
  destruct (matchRun 1 (byte "-") s6) as [s7|]; [|done].
  destruct (matchRun 1 isVariant s7) as [s8|] eqn:E7; [|done].
  destruct (matchRun 3 isLowerHex s8) as [s9|] eqn:E8; [|done].
  assert (matchRun 4 isLowerHex s7 = Some s9) as ->.
  { change 4 with (1 + 3). rewrite matchRun_add.
    rewrite (matchRun_weaken 1 isVariant isLowerHex s7 s8); [done| |done].
    intros c. unfold isVariant, byte.
    intros [[[<-%Ascii.eqb_eq| <-%Ascii.eqb_eq]%orb_true_iff
            | <-%Ascii.eqb_eq]%orb_true_iff| <-%Ascii.eqb_eq]%orb_true_iff; done. }
  done.
Qed.

Lemma IsNumeric_IsHexadecimal s : s <> "" -> IsNumeric s = true -> IsHexadecimal s = true.
Proof.
  intros Hne%String.eqb_neq. unfold IsNumeric, IsHexadecimal. rewrite Hne. simpl.
  apply ExtensionFacts.all_impl. intros c Hc. unfold isHex. by rewrite Hc.
Qed.

Lemma hash_IsHexadecimal n s :
  n <> 0 -> matchRuns [(n, isLowerHex)] s = true -> IsHexadecimal s = true.
Proof.
  intros Hn Hm. unfold IsHexadecimal.
  assert (s <> "") as Hne.
  { intros ->. destruct n; [done|]. done. }
  apply String.eqb_neq in Hne. rewrite Hne. simpl.
  eapply ExtensionFacts.all_impl; [|exact (ExtensionFacts.matchRuns_all _ _ Hm)].
  intros c. simpl. rewrite orb_false_r. unfold isLowerHex, isHex.
  destruct (isLowerHexLetter c), (isDigit c); done.
Qed.

End JoinFacts.

(** ** The event key and the body of the loop *)

(** Without a parameter name, or when the query binds nothing to the
    name, the key is the method and the sanitized path alone: an absent
    parameter is no error and adds no field, not even an empty one. *)
Theorem key_without_operation_names `{Library} {Other : Type} rn
    (event : HttpRequest Other) normalized :
  normalizePath rn (Path (EventURL event)) = Returns normalized ->
  getParamWithEventIdentifier rn = ""
  \/ (forall kv, kv ∈ ParseQuery (RawQuery (EventURL event)) ->
                 kv.1 <> getParamWithEventIdentifier rn) ->
  getNormalizedEventKey rn event
  = Returns (Method event +:+ ":" +:+ normalized).
Proof.
  intros Hn Habsent. rewrite (getNormalizedEventKey_returns _ _ _ Hn).
  assert (operationNames rn (EventURL event) = []) as ->; [|done].
  unfold operationNames. destruct Habsent as [->|Habsent]; [done|].
  destruct (String.eqb _ ""); [done|].
  unfold valuesOf.
  assert (filter (fun kv : string * string => kv.1 = getParamWithEventIdentifier rn)
            (ParseQuery (RawQuery (EventURL event))) = []) as ->; [|done].
  induction (ParseQuery _) as [|kv l IH]; [done|].
  rewrite filter_cons. destruct (decide _) as [Heq|_].
  - exfalso. apply (Habsent kv); [by left|done].
  - apply IH. intros kv' Hin. apply Habsent. by right.
Qed.

Lemma key_without_operation_names_witness :
  getNormalizedEventKey Examples.numbersNormalizer
    (Examples.request "GET" "/users/42" "page=2&sort=name" "")
  = Returns "GET:/users/0".
Proof.
  apply (key_without_operation_names (H := Plain.library) Examples.numbersNormalizer
           (Examples.request "GET" "/users/42" "page=2&sort=name" "") "/users/0").
  - reflexivity.
  - right. intros kv Hin. apply list_elem_of_In in Hin. simpl in Hin.
    destruct Hin as [<-|[<-|[]]]; discriminate.
Defined.

(** The values are put in the key as they are, the separator not
    escaped: two requests whose values are [a] then [b] for the one, and
    the single value [a:b] for the other, get the same key. *)
Theorem key_values_are_not_escaped `{Library} {Other : Type} rn
    (event1 event2 : HttpRequest Other) before a b after :
  Method event1 = Method event2 ->
  Path (EventURL event1) = Path (EventURL event2) ->
  operationNames rn (EventURL event1) = before ++ [a; b] ++ after ->
  operationNames rn (EventURL event2) = before ++ [a +:+ ":" +:+ b] ++ after ->
  getNormalizedEventKey rn event1 = getNormalizedEventKey rn event2.
Proof.
  intros Hm Hp H1 H2.
  destruct (normalizePath rn (Path (EventURL event1))) as [normalized|] eqn:Hn.
  - rewrite (getNormalizedEventKey_returns _ event1 _ Hn).
    rewrite Hp in Hn. rewrite (getNormalizedEventKey_returns _ event2 _ Hn).
    rewrite H1, H2, Hm. f_equal.
    rewrite !(app_assoc [Method event2; normalized] before).
    apply JoinFacts.Join_merge.
  - unfold getNormalizedEventKey. by rewrite <- Hp, Hn.
Qed.

Lemma key_values_are_not_escaped_witness :
  getNormalizedEventKey Examples.numbersNormalizer
    (Examples.request "GET" "/users/42" "op=list&op=all" "")
  = getNormalizedEventKey Examples.numbersNormalizer
      (Examples.request "GET" "/users/42" "op=list:all" "").
Proof.
  apply (key_values_are_not_escaped (H := Plain.library) Examples.numbersNormalizer
           (Examples.request "GET" "/users/42" "op=list&op=all" "")
           (Examples.request "GET" "/users/42" "op=list:all" "")
           [] "list" "all" []); reflexivity.
Defined.

(** The event the body of the loop returns never has an empty key, so a
    second pass of the body, with any normalizer, returns it as it is:
    stages in a row are as good as the first. *)
Theorem Run_body_once_is_enough `{Library} {Other : Type} rn rn'
    (event processed : HttpRequest Other) :
  Run_body rn event = Returns processed ->
  EventKey processed <> ""
  /\ Run_body rn' processed = Returns processed.
Proof.
  intros Hbody.
  assert (EventKey processed <> "") as Hkey.
  { unfold Run_body in Hbody.
    destruct (String.eqb_spec (EventKey event) "") as [He|He]; simpl in Hbody.
    - destruct (getNormalizedEventKey rn event) as [key|] eqn:Hk; [|done].
      injection Hbody as <-. simpl.
      unfold getNormalizedEventKey in Hk.
      destruct (normalizePath rn (Path (EventURL event))) as [q|]; [|done].
      simpl in Hk. injection Hk as <-.
      destruct (negb _); [destruct (Query _ !! _)|];
        by apply JoinFacts.Join_two_nonempty.
    - by injection Hbody as <-. }
  split; [done|]. by apply Run_body_keyed.
Qed.

Lemma Run_body_once_is_enough_witness :
  Run_body Examples.fullNormalizer
    (Examples.request "GET" "/users/42" "op=list&op=summary" "GET:/users/0:list:summary")
  = Returns
      (Examples.request "GET" "/users/42" "op=list&op=summary" "GET:/users/0:list:summary").
Proof.
  exact (proj2 (Run_body_once_is_enough (H := Plain.library) Examples.numbersNormalizer
                  Examples.fullNormalizer Examples.listUsers _ eq_refl)).
Defined.

(** ** The tests of the heuristics against one another *)

(** Two of the tests add nothing: a UUID of version 4 is a UUID, and a
    non-empty numeric segment is hexadecimal, so the uuids heuristic
    fires exactly on [IsUUID] and the numbers heuristic exactly on
    [IsHexadecimal]. *)
Theorem redundant_tests item :
  item <> "" ->
  Govalidator.IsUUID item || Govalidator.IsUUIDv4 item = Govalidator.IsUUID item
  /\ Govalidator.IsNumeric item || Govalidator.IsHexadecimal item
     = Govalidator.IsHexadecimal item.
Proof.
  intros Hne. split.
  - destruct (Govalidator.IsUUIDv4 item) eqn:E; [|apply orb_false_r].
    by rewrite (JoinFacts.IsUUIDv4_IsUUID _ E).
  - destruct (Govalidator.IsNumeric item) eqn:E; [|done].
    by rewrite (JoinFacts.IsNumeric_IsHexadecimal _ Hne E).
Qed.

Lemma redundant_tests_witness :
  Govalidator.IsUUID "123e4567-e89b-42d3-a456-426614174000"
  || Govalidator.IsUUIDv4 "123e4567-e89b-42d3-a456-426614174000"
  = Govalidator.IsUUID "123e4567-e89b-42d3-a456-426614174000".
Proof.
  exact (proj1 (redundant_tests "123e4567-e89b-42d3-a456-426614174000"
                  ltac:(discriminate))).
Defined.

(** Every MD5, SHA1 or SHA256 digest is hexadecimal: with the hashes
    toggle off and the numbers toggle on, [normalizePath] replaces a
    digest by the number placeholder. *)
Theorem hash_counts_as_number `{Library} rn rawPath normalized i item :
  rawPath <> "" ->
  normalizePath rn rawPath = Returns normalized ->
  Strings.Split (Path.Clean (applyRules (replaceRules rn) rawPath)) "/" !! i
  = Some item ->
  Govalidator.IsMD5 item || Govalidator.IsSHA1 item || Govalidator.IsSHA256 item = true ->
  sanitizeHashes rn = false -> sanitizeNumbers rn = true ->
  Strings.Split normalized "/" !! i = Some numberPlaceholder.
Proof.
  intros Hne [[-> _]|(_ & _ & ->)]%normalizePath_inv Hi Hhash Hoff Hon; [done|].
  rewrite Split_sanitizeRewritten, list_lookup_imap, Hi. simpl. f_equal.
  assert (Govalidator.IsHexadecimal item = true) as Hhex.
  { apply orb_true_iff in Hhash as [[Hh|Hh]%orb_true_iff|Hh];
      by eapply JoinFacts.hash_IsHexadecimal; [|exact Hh]. }
  unfold Spec.sanitizeSegment, Spec.firstMatch, Spec.heuristics. simpl.
  rewrite Hoff, Hon, Hhex, orb_true_r. simpl.
  destruct (String.eqb_spec item "") as [->|_]; done.
Qed.

Lemma hash_counts_as_number_witness :
  Strings.Split "/files/0" "/" !! 2 = Some numberPlaceholder.
Proof.
  apply (hash_counts_as_number (H := Plain.library) Examples.numbersNormalizer
           "/files/d41d8cd98f00b204e9800998ecf8427e" "/files/0" 2
           "d41d8cd98f00b204e9800998ecf8427e"); (reflexivity || discriminate).
Defined.

Section ObservedFacts.

Context `{Library} {Other Duration : Type}.

Implicit Types (os : observedStage (Other := Other) (Duration := Duration))
  (events : list (HttpRequest Other)) (o : option (list Duration)).

(** An observed step is a step of the stage, or an observation. *)
Lemma observedStep_channels rn os os' :
  observedStep rn os os' ->
  step rn (channels os) (channels os') \/ channels os' = channels os.
Proof. destruct 1; simpl; auto. Qed.

Lemma observedSteps_channels rn os os' :
  rtc (observedStep rn) os os' -> rtc (step rn) (channels os) (channels os').
Proof.
  induction 1 as [|os1 os2 os3 Hstep _ IH]; [done|].
  destruct (observedStep_channels _ _ _ Hstep) as [Hs|Heq].
  - by eapply rtc_l.
  - by rewrite <- Heq.
Qed.

Lemma step_outputs rn (s s' : stage (Other := Other)) :
  step rn s s' ->
  (worker s' = worker s /\ outputEventsChan s' = outputEventsChan s)
  \/ (worker s = Receiving /\ worker s' <> Receiving
      /\ outputEventsChan s' = outputEventsChan s)
  \/ (exists e, worker s = Sending e /\ worker s' = Receiving
                /\ outputEventsChan s' = outputEventsChan s ++ [e]).
Proof.
  destruct 1; simpl; eauto 10.
Qed.

Lemma observedStart_ok events o : observedOk o (observedStart events o).
Proof.
  split; [done|]. destruct o as [before|]; [|done].
  exists []. by rewrite app_nil_r.
Qed.

Lemma observedStep_ok rn o os os' :
  observedOk o os -> observedStep rn os os' -> observedOk o os'.
Proof.
  intros [Hdue Hobs] Hstep.
  destruct Hstep as [s s' obs o' Hs Hw|s s' o' Hs Hw Hw'|s s' e o' Hs Hw Hw'|s o' elapsed];
    unfold observedOk; simpl in *.
  - destruct (step_outputs _ _ _ Hs) as [[_ Hout]|[(Hr & Hnr & _)|(e & He & Hr & _)]];
      [|congruence..].
    split; [by rewrite Hw|]. simpl.
    destruct o as [before|]; [|done].
    destruct Hobs as (observed & Ho & Hlen). exists observed. by rewrite Hout.
  - destruct (step_outputs _ _ _ Hs) as [[Heq _]|[(_ & _ & Hout)|(e & He & _)]];
      [congruence| |congruence].
    split; [done|]. simpl.
    destruct o as [before|]; [|done].
    destruct Hobs as (observed & Ho & Hlen). exists observed. by rewrite Hout.
  - destruct (step_outputs _ _ _ Hs) as [[Heq _]|[(Hr & _)|(e' & _ & _ & Hout)]];
      [congruence..|].
    split; [done|]. simpl.
    destruct o as [before|]; [|done].
    destruct Hobs as (observed & Ho & Hlen). exists observed.
    split; [done|]. rewrite Hout, length_app. simpl. lia.
  - split; [done|]. simpl.
    destruct o as [before|].
    + destruct Hobs as (observed & -> & Hlen). exists (observed ++ [elapsed]).
      simpl. split; [by rewrite app_assoc|]. rewrite length_app. simpl. lia.
    + by rewrite Hobs.
Qed.

Lemma observedSteps_ok rn events o os :
  rtc (observedStep rn) (observedStart events o) os -> observedOk o os.
Proof.
  intros Hs. eapply (rtc_ind_r (fun os => observedOk o os));
    [|by eauto using observedStep_ok|exact Hs].
  apply observedStart_ok.
Qed.

(** Every observed step takes one off what is left. *)
Lemma observedStep_stepsLeft rn os os' :
  observedStep rn os os' -> observedStepsLeft os' < observedStepsLeft os.
Proof.
  destruct 1 as [s s' obs o' Hs Hw|s s' o' Hs Hw Hw'|s s' e o' Hs Hw Hw'|s o' elapsed];
    unfold observedStepsLeft; simpl;
    try (apply step_stepsLeft in Hs); try destruct obs; lia.
Qed.

(** An observed stage that has not finished can move. *)
Lemma observedStage_progress rn events os (elapsed : Duration) :
  precompiled (replaceRules rn) ->
  stageOk rn events (channels os) ->
  worker (channels os) <> Finished ->
  exists os', observedStep rn os os'.
Proof.
  intros Hp Hok Hnf. destruct os as [s [] o']; simpl in *.
  - eexists. apply (observed_observe _ _ _ elapsed).
  - destruct (stage_progress _ _ _ Hp Hok Hnf) as (s' & Hs).
    destruct (step_outputs _ _ _ Hs) as [[Hw _]|[(Hr & Hnr & _)|(e & He & Hr & _)]].
    + eexists. by apply observed_producer.
    + eexists. by apply observed_loop_head.
    + eexists. by eapply observed_send.
Qed.

Lemma observedStage_finishes rn events o os (elapsed : Duration) :
  precompiled (replaceRules rn) ->
  rtc (observedStep rn) (observedStart events o) os ->
  exists os', rtc (observedStep rn) os os' /\ worker (channels os') = Finished.
Proof.
  intros Hp. remember (observedStepsLeft os) as n eqn:Hn. revert os Hn.
  induction n as [n IH] using lt_wf_ind. intros os -> Hreach.
  assert (worker (channels os) = Finished \/ worker (channels os) <> Finished) as [Hf|Hnf]
    by (destruct (worker (channels os)); (by left) || (by right)).
  - exists os. by split.
  - assert (stageOk rn events (channels os)) as Hok.
    { apply steps_ok; [done|]. by apply (observedSteps_channels _ _ _ Hreach). }
    destruct (observedStage_progress _ _ _ elapsed Hp Hok Hnf) as (os1 & Hstep).
    destruct (IH (observedStepsLeft os1) (observedStep_stepsLeft _ _ _ Hstep) os1 eq_refl)
      as (os' & Hs' & Hf); [by eapply rtc_r|].
    exists os'. split; [|done]. by eapply rtc_l.
Qed.

End ObservedFacts.

(** ** The latency observer *)

(** The observer is given one value for every event the stage has sent
    on, pass-through events included, each after the send: at any time
    as many as events sent, less the one whose observation is still due,
    and as many as events received from the producer once the worker has
    finished.  Without an observer nothing is observed.  Either way the
    channels see a run of the stage without observer, and the stage can
    still finish. *)
Theorem observer_is_given_every_event `{Library} {Other Duration : Type}
    config rn (events : list (HttpRequest Other)) (o : option (list Duration)) os :
  NewFromConfig config = (Some rn, None) ->
  rtc (observedStep rn) (observedStart events o) os ->
  rtc (step rn) (start events) (channels os)
  /\ match o with
     | Some before =>
         exists observed,
           observer os = Some (before ++ observed)
           /\ length observed + (if observing os then 1 else 0)
              = length (outputEventsChan (channels os))
           /\ (worker (channels os) = Finished -> length observed = length events)
     | None => observer os = None
     end
  /\ forall elapsed : Duration,
       exists os', rtc (observedStep rn) os os'
                   /\ worker (channels os') = Finished.
Proof.
  intros (_ & Hp & _)%NewFromConfig_Some Hreach.
  pose proof (observedSteps_channels _ _ _ Hreach) as Hsteps. simpl in Hsteps.
  split; [done|]. split.
  - destruct (observedSteps_ok _ _ _ _ Hreach) as [Hdue Hobs].
    destruct o as [before|]; [|done].
    destruct Hobs as (observed & Ho & Hlen). exists observed.
    split; [done|]. split; [done|]. intros Hf.
    destruct (stageOk_finished _ _ _ (steps_ok _ _ _ Hp Hsteps) Hf) as [Hout _].
    rewrite Hout, length_fmap in Hlen.
    destruct (observing os); [|lia].
    rewrite Hdue in Hf by done. done.
  - intros elapsed. by eapply observedStage_finishes.
Qed.

Lemma observer_is_given_every_event_witness :
  exists observed,
    Some [7] = Some ([] ++ observed) /\ length observed + 0 = 1.
Proof.
  destruct (observer_is_given_every_event (H := Plain.library) Examples.fullConfig
              Examples.fullNormalizer [Examples.preset] (SetPrometheusObserver [])
              {| channels :=
                   {| upstream := []; inputEventsChan := []; inputClosed := false;
                      worker := Receiving; outputEventsChan := [Examples.preset];
                      outputClosed := false |};
                 observing := false; observer := Some [7] |} eq_refl)
    as (_ & (observed & Ho & Hlen & _) & _).
  - unfold observedStart, start.
    eapply rtc_l; [apply observed_producer; [apply step_produce|reflexivity]|].
    eapply rtc_l; [apply observed_loop_head;
                   [apply (step_receive _ _ Examples.preset); reflexivity
                   |reflexivity|discriminate]|].
    eapply rtc_l; [eapply observed_send; [apply step_send|reflexivity|reflexivity]|].
    eapply rtc_l; [apply (observed_observe _ _ _ 7)|]. apply rtc_refl.
  - exists observed. split; [exact Ho|exact Hlen].
Defined.

Section TextOnly.

Context `{Library}.

Lemma precompileLoop_sameText range1 range2 pre :
  Forall2 sameText range1 range2 ->
  (precompileLoop (length pre) range1 (pre ++ range1)).2
  = (precompileLoop (length pre) range2 (pre ++ range2)).2
  /\ ((precompileLoop (length pre) range1 (pre ++ range1)).2 = None ->
      (precompileLoop (length pre) range1 (pre ++ range1)).1
      = (precompileLoop (length pre) range2 (pre ++ range2)).1).
Proof.
  intros Hsame. revert pre.
  induction Hsame as [|r1 r2 range1 range2 [Hre Hrep] _ IH]; intros pre; [done|].
  simpl. rewrite <- Hre.
  destruct (regexpCompile (Regexp r1)) as [c|] eqn:Hc; [|done].
  rewrite !alter_app_r_alt by done. rewrite Nat.sub_diag. simpl.
  assert (setRegexpCompiled r2 c = setRegexpCompiled r1 c) as ->.
  { unfold setRegexpCompiled. by rewrite Hre, Hrep. }
  rewrite (cons_middle _ pre range1), (cons_middle _ pre range2), !app_assoc.
  replace (S (length pre)) with (length (pre ++ [setRegexpCompiled r1 c]))
    by (rewrite length_app; simpl; lia).
  apply IH.
Qed.

End TextOnly.

(** [NewFromConfig] never relies on a compiled pattern it finds in a
    rule: two configurations whose rules have the same pattern texts and
    replacements, and whose other fields agree, give the same
    normalizer, or the same error. *)
Theorem NewFromConfig_reads_pattern_texts `{Library} config1 config2 :
  Forall2 sameText (ReplaceRules config1) (ReplaceRules config2) ->
  sameSettings config1 config2 ->
  NewFromConfig config1 = NewFromConfig config2.
Proof.
  intros Hsame (Hq & H1 & H2 & H3 & H4 & H5 & H6).
  destruct (precompileLoop_sameText _ _ [] Hsame) as [Herr Hrules]. simpl in Herr, Hrules.
  unfold NewFromConfig, precompileRegexps, setReplaceRules. simpl.
  rewrite Hq, H1, H2, H3, H4, H5, H6.
  destruct (precompileLoop 0 (ReplaceRules config1) (ReplaceRules config1))
    as [rules1 err1].
  destruct (precompileLoop 0 (ReplaceRules config2) (ReplaceRules config2))
    as [rules2 err2].
  simpl in *. subst err2. destruct err1 as [e|]; [done|].
  by rewrite (Hrules eq_refl).
Qed.

Lemma NewFromConfig_reads_pattern_texts_witness :
  NewFromConfig (Examples.config [Examples.compiledRule "/v2/orders/123" "/legacy"] true "op")
  = NewFromConfig Examples.fullConfig.
Proof.
  apply (NewFromConfig_reads_pattern_texts (H := Plain.library)).
  - repeat constructor.
  - repeat split.
Defined.

(** A segment with a dot in it is no hash, number or UUID: unless it is
    taken for an IP literal, or is the last segment and has an image or
    font extension that is looked for, it is left as it is, whatever the
    toggles. *)
Theorem dotted_segment_is_kept `{Library} rn rawPath normalized i item :
  rawPath <> "" ->
  normalizePath rn rawPath = Returns normalized ->
  let segments :=
    Strings.Split (Path.Clean (applyRules (replaceRules rn) rawPath)) "/" in
  segments !! i = Some item ->
  Strings.noSep "." item = false ->
  (sanitizeIps rn = true -> IsIP item = false) ->
  (i + 1 = length segments -> sanitizeImages rn = true ->
   Extensions.imageExtensionRegex item = false) ->
  (i + 1 = length segments -> sanitizeFonts rn = true ->
   Extensions.fontExtensionRegex item = false) ->
  Strings.Split normalized "/" !! i = Some item.
Proof.
  intros Hne [[-> _]|(_ & _ & ->)]%normalizePath_inv segments Hi Hdot Hip Himg Hfont;
    [done|].
  rewrite Split_sanitizeRewritten. fold segments.
  rewrite list_lookup_imap, Hi. simpl. f_equal.
  destruct (ExtensionFacts.dot_not_identifier item Hdot) as (H1 & H2 & H3).
  assert (item <> "") as Hitem by (by intros ->).
  specialize (H2 Hitem).
  unfold Spec.sanitizeSegment, Spec.firstMatch, Spec.heuristics. simpl.
  rewrite H1, H2, H3, !andb_false_r.
  apply String.eqb_neq in Hitem. rewrite Hitem.
  assert (sanitizeIps rn && IsIP item = false) as ->.
  { destruct (sanitizeIps rn); [by rewrite Hip|done]. }
  destruct (Nat.eqb_spec (i + 1) (length segments)) as [Hlast|_]; [|done]. simpl.
  assert (sanitizeImages rn && Extensions.imageExtensionRegex item = false) as ->.
  { destruct (sanitizeImages rn); [by rewrite Himg|done]. }
  assert (sanitizeFonts rn && Extensions.fontExtensionRegex item = false) as ->.
  { destruct (sanitizeFonts rn); [by rewrite Hfont|done]. }
  done.
Qed.

Lemma dotted_segment_is_kept_witness :
  Strings.Split "/users/42.json" "/" !! 2 = Some "42.json".
Proof.
  apply (dotted_segment_is_kept (H := Plain.library) Examples.fullNormalizer
           "/users/42.json" "/users/42.json" 2 "42.json");
    (reflexivity || discriminate || (intros; reflexivity)).
Defined.
